(** * thumbnail_generator.py: a shallow embedding and its specification

    The development follows the source file top-down:
    strings and paths ([Path.suffix], [str.lower], [in], [join]),
    [hashlib.md5], the filesystem tree with [stat], [exists], [mkdir]
    and [os.walk], the state-and-exception monad in which the effectful
    functions run, then the functions of the program itself and the
    theorems about them. *)

From Stdlib Require Import List String Ascii ZArith Lia Bool Permutation.
From Stdlib Require Import Numbers.DecimalString.
Import ListNotations.

Local Open Scope string_scope.
Local Open Scope Z_scope.

(** ** Strings

    A Python [str] is modelled by its bytes, one [ascii] per byte: the
    UTF-8 bytes of its characters, and, for a file name that is not valid
    UTF-8, the bytes of the name, which Python keeps as lone surrogates
    ([os.fsdecode] with [surrogateescape]).  [s.encode('utf-8')] gives the
    bytes back when they are valid UTF-8 and raises [UnicodeEncodeError]
    when they are not. *)

Module Str.

Definition lower_char (c : ascii) : ascii :=
  let n := N_of_ascii c in
  if ((65 <=? n) && (n <=? 90))%N then ascii_of_N (n + 32) else c.

(** The bytes [E2 84 AA] of U+212A KELVIN SIGN. *)
Definition is_kelvin (c0 c1 c2 : ascii) : bool :=
  ((N_of_ascii c0 =? 226) && (N_of_ascii c1 =? 132) && (N_of_ascii c2 =? 170))%N.

(** [s.lower()], as far as ASCII goes.  The characters whose lower case is
    an ASCII string are the letters [A] to [Z] and the Kelvin sign, which
    becomes [k]; these are mapped.  Any other character is left as it is:
    its lower case holds a non-ASCII character as well, so that whether the
    result is one of the (ASCII) extensions of the tables is decided as by
    [str.lower]. *)
Fixpoint lower (s : string) : string :=
  match s with
  | EmptyString => EmptyString
  | String c r =>
      match r with
      | String c1 (String c2 r') =>
          if is_kelvin c c1 c2 then String "k"%char (lower r')
          else String (lower_char c) (lower r)
      | _ => String (lower_char c) (lower r)
      end
  end.

(** [s.rfind(c)]: index of the last occurrence, [-1] when there is none. *)
Fixpoint rfind (c : ascii) (s : string) : Z :=
  match s with
  | EmptyString => -1
  | String a r =>
      let k := rfind c r in
      if 0 <=? k then 1 + k
      else if Ascii.eqb a c then 0 else -1
  end.

(** [s[i:]] for [0 <= i]. *)
Definition drop (i : Z) (s : string) : string :=
  substring (Z.to_nat i) (String.length s - Z.to_nat i) s.

(** [pat in s]: substring test. *)
Fixpoint contains (pat s : string) : bool :=
  prefix pat s ||
  match s with
  | EmptyString => false
  | String _ r => contains pat r
  end.

(** [sep.join(l)]. *)
Fixpoint join (sep : string) (l : list string) : string :=
  match l with
  | [] => ""
  | [x] => x
  | x :: r => x ++ sep ++ join sep r
  end.

(** [str(n)] for an [int]. *)
Definition of_Z (n : Z) : string := NilEmpty.string_of_int (Z.to_int n).

Definition bytes (s : string) : list Z :=
  map (fun c => Z.of_N (N_of_ascii c)) (list_ascii_of_string s).

(** A continuation byte of UTF-8. *)
Definition continuation (b : Z) : bool := (128 <=? b) && (b <=? 191).

(** The bytes are well-formed UTF-8 (RFC 3629, as Python's codec has it:
    no overlong form, no surrogate, nothing above U+10FFFF). *)
Fixpoint valid_utf8 (bs : list Z) : bool :=
  match bs with
  | [] => true
  | b0 :: r0 =>
      if b0 <=? 127 then valid_utf8 r0
      else
        match r0 with
        | [] => false
        | b1 :: r1 =>
            if (194 <=? b0) && (b0 <=? 223) then continuation b1 && valid_utf8 r1
            else
              match r1 with
              | [] => false
              | b2 :: r2 =>
                  if (224 <=? b0) && (b0 <=? 239) then
                    (if b0 =? 224 then (160 <=? b1) && (b1 <=? 191)
                     else if b0 =? 237 then (128 <=? b1) && (b1 <=? 159)
                     else continuation b1)
                    && continuation b2 && valid_utf8 r2
                  else
                    match r2 with
                    | [] => false
                    | b3 :: r3 =>
                        if (240 <=? b0) && (b0 <=? 244) then
                          (if b0 =? 240 then (144 <=? b1) && (b1 <=? 191)
                           else if b0 =? 244 then (128 <=? b1) && (b1 <=? 143)
                           else continuation b1)
                          && continuation b2 && continuation b3 && valid_utf8 r3
                        else false
                    end
              end
        end
  end.

(** [x in S] for a set or tuple of strings. *)
Definition mem (x : string) (S : list string) : bool :=
  existsb (String.eqb x) S.

End Str.

(** ** hashlib.md5 (RFC 1321), on 32-bit words held in [Z] *)

Module MD5.

Definition W : Z := 2 ^ 32.
Definition add32 (a b : Z) : Z := (a + b) mod W.
Definition not32 (a : Z) : Z := Z.lxor a (W - 1).
Definition rotl32 (x c : Z) : Z :=
  Z.lor (Z.shiftl x c mod W) (Z.shiftr x (32 - c)).

Definition K : list Z :=
  [ 3614090360; 3905402710; 606105819; 3250441966; 4118548399; 1200080426; 2821735955; 4249261313;
    1770035416; 2336552879; 4294925233; 2304563134; 1804603682; 4254626195; 2792965006; 1236535329;
    4129170786; 3225465664; 643717713; 3921069994; 3593408605; 38016083; 3634488961; 3889429448;
    568446438; 3275163606; 4107603335; 1163531501; 2850285829; 4243563512; 1735328473; 2368359562;
    4294588738; 2272392833; 1839030562; 4259657740; 2763975236; 1272893353; 4139469664; 3200236656;
    681279174; 3936430074; 3572445317; 76029189; 3654602809; 3873151461; 530742520; 3299628645;
    4096336452; 1126891415; 2878612391; 4237533241; 1700485571; 2399980690; 4293915773; 2240044497;
    1873313359; 4264355552; 2734768916; 1309151649; 4149444226; 3174756917; 718787259; 3951481745 ].

Definition S : list Z :=
  [ 7; 12; 17; 22; 7; 12; 17; 22; 7; 12; 17; 22; 7; 12; 17; 22;
    5; 9; 14; 20; 5; 9; 14; 20; 5; 9; 14; 20; 5; 9; 14; 20;
    4; 11; 16; 23; 4; 11; 16; 23; 4; 11; 16; 23; 4; 11; 16; 23;
    6; 10; 15; 21; 6; 10; 15; 21; 6; 10; 15; 21; 6; 10; 15; 21 ].

Record state := St { sa : Z; sb : Z; sc : Z; sd : Z }.

Definition init : state := St 1732584193 4023233417 2562383102 271733878.

Definition at_ (l : list Z) (i : Z) : Z := nth (Z.to_nat i) l 0.

(** One of the 64 operations on the working registers; [m] is the block
    as sixteen little-endian words. *)
Definition step (m : list Z) (s : state) (i : Z) : state :=
  let '(St a b c d) := s in
  let '(f, g) :=
    if i <? 16 then (Z.lor (Z.land b c) (Z.land (not32 b) d), i)
    else if i <? 32 then (Z.lor (Z.land d b) (Z.land (not32 d) c), (5 * i + 1) mod 16)
    else if i <? 48 then (Z.lxor (Z.lxor b c) d, (3 * i + 5) mod 16)
    else (Z.lxor c (Z.lor b (not32 d)), (7 * i) mod 16) in
  let f' := add32 (add32 (add32 f a) (at_ K i)) (at_ m g) in
  St d (add32 b (rotl32 f' (at_ S i))) b c.

Definition rounds : list Z := map Z.of_nat (seq 0 64).

Fixpoint le_words (n : nat) (bs : list Z) : list Z :=
  match n with
  | O => []
  | Datatypes.S n' =>
      (at_ bs 0 + at_ bs 1 * 2 ^ 8 + at_ bs 2 * 2 ^ 16 + at_ bs 3 * 2 ^ 24)
        :: le_words n' (skipn 4 bs)
  end.

Definition block (s : state) (bs : list Z) : state :=
  let r := fold_left (step (le_words 16 bs)) rounds s in
  St (add32 (sa s) (sa r)) (add32 (sb s) (sb r))
     (add32 (sc s) (sc r)) (add32 (sd s) (sd r)).

Fixpoint le_bytes (n : nat) (x : Z) : list Z :=
  match n with
  | O => []
  | Datatypes.S n' => x mod 256 :: le_bytes n' (x / 256)
  end.

Definition pad (msg : list Z) : list Z :=
  let len := Z.of_nat (List.length msg) in
  let zeros := Z.to_nat ((55 - len) mod 64) in
  msg ++ [128] ++ repeat 0 zeros ++ le_bytes 8 ((8 * len) mod 2 ^ 64).

Fixpoint blocks (n : nat) (s : state) (bs : list Z) : state :=
  match n with
  | O => s
  | Datatypes.S n' => blocks n' (block s (firstn 64 bs)) (skipn 64 bs)
  end.

(** [hashlib.md5(msg).digest()]: sixteen bytes. *)
Definition digest (msg : list Z) : list Z :=
  let p := pad msg in
  let '(St a b c d) := blocks (List.length p / 64) init p in
  le_bytes 4 a ++ le_bytes 4 b ++ le_bytes 4 c ++ le_bytes 4 d.

Definition hex_digit (n : Z) : ascii :=
  ascii_of_N (Z.to_N (if n <? 10 then 48 + n else 87 + n)).

Fixpoint hex (bs : list Z) : string :=
  match bs with
  | [] => ""
  | b :: r => String (hex_digit (b / 16)) (String (hex_digit (b mod 16)) (hex r))
  end.

(** [hashlib.md5(msg).hexdigest()]. *)
Definition hexdigest (msg : list Z) : string := hex (digest msg).

End MD5.

(** ** pathlib

    A [Path] is the list of its components below the filesystem root;
    [Path.suffix] is the one of CPython 3.8 to 3.13. *)

Definition Path := list string.

Module PurePath.

Definition name (p : Path) : string := last p "".
Definition parent (p : Path) : Path := removelast p.

(** [p / c] *)
Definition div (p : Path) (c : string) : Path := (p ++ [c])%list.

Definition suffix (p : Path) : string :=
  let n := name p in
  let i := Str.rfind "." n in
  if (0 <? i) && (i <? Z.of_nat (String.length n) - 1) then Str.drop i n else "".

(** [str(p)] *)
Definition str (p : Path) : string :=
  match p with
  | [] => "/"
  | _ => String.concat "" (map (fun c => "/" ++ c) p)
  end.

End PurePath.

Notation "p // c" := (PurePath.div p c) (at level 40, left associativity).

(** ** Exceptions and results

    Every constructor stands for a subclass of Python's [Exception]. *)

Inductive exn :=
| FileNotFoundError
| NotADirectoryError
| FileExistsError
| PermissionError
| TimeoutExpired
| ValueError
| KeyError
| UnidentifiedImageError
| UnicodeEncodeError
| OtherError (msg : string).

Definition exn_str (e : exn) : string :=
  match e with
  | FileNotFoundError => "No such file or directory"
  | NotADirectoryError => "Not a directory"
  | FileExistsError => "File exists"
  | PermissionError => "Permission denied"
  | TimeoutExpired => "timed out"
  | ValueError => "invalid value"
  | KeyError => "key error"
  | UnidentifiedImageError => "cannot identify image file"
  | UnicodeEncodeError => "'utf-8' codec can't encode character: surrogates not allowed"
  | OtherError msg => msg
  end.

Inductive res (A : Type) :=
| Return (a : A)
| Raise (e : exn).
Arguments Return {A} a.
Arguments Raise {A} e.

(** [s.encode('utf-8')] *)
Definition encode_utf8 (s : string) : res (list Z) :=
  if Str.valid_utf8 (Str.bytes s) then Return (Str.bytes s)
  else Raise UnicodeEncodeError.

(** ** The filesystem: a tree of files and directories

    A directory keeps its entries in [os.scandir] order.  Everything that
    is not a directory is a [File]; symbolic links and special files are
    not modelled ([os.walk] does not follow links to directories).
    Permissions are not part of the tree: a call that the operating system
    refuses is the business of the environment, below. *)

#[local] Unset Elimination Schemes.
Inductive node :=
| File (mtime : Z) (data : string)
| Dir (mtime : Z) (entries : list (string * node)).
#[local] Set Elimination Schemes.

Module FS.

Definition st_mtime (n : node) : Z :=
  match n with
  | File m _ => m
  | Dir m _ => m
  end.

Definition isdir (n : node) : bool :=
  match n with
  | Dir _ _ => true
  | File _ _ => false
  end.

Fixpoint assoc (c : string) (es : list (string * node)) : option node :=
  match es with
  | [] => None
  | (k, n) :: r => if String.eqb c k then Some n else assoc c r
  end.

Fixpoint update (c : string) (n' : node) (es : list (string * node))
  : list (string * node) :=
  match es with
  | [] => []
  | (k, n) :: r => if String.eqb c k then (k, n') :: r else (k, n) :: update c n' r
  end.

(** Path resolution from the root [n]. *)
Fixpoint lookup (n : node) (p : Path) : res node :=
  match p with
  | [] => Return n
  | c :: p' =>
      match n with
      | File _ _ => Raise NotADirectoryError
      | Dir _ es =>
          match assoc c es with
          | Some ch => lookup ch p'
          | None => Raise FileNotFoundError
          end
      end
  end.

(** [p.exists()] *)
Definition exists_ (n : node) (p : Path) : bool :=
  match lookup n p with
  | Return _ => true
  | Raise _ => false
  end.

(** [p.is_dir()] *)
Definition is_dir (n : node) (p : Path) : bool :=
  match lookup n p with
  | Return ch => isdir ch
  | Raise _ => false
  end.

(** [p.stat().st_mtime]; the float is modelled by an integer time stamp,
    only its order is used. *)
Definition stat_mtime (n : node) (p : Path) : res Z :=
  match lookup n p with
  | Return ch => Return (st_mtime ch)
  | Raise e => Raise e
  end.

(** What [p.mkdir(parents=True, exist_ok=True)] does to the tree at time
    [now] when the operating system lets it: missing directories along [p]
    are created, an existing directory is left as it is, a regular file in
    the way is an error.  The call of the program is [path_mkdir], below,
    which the operating system may refuse. *)
Fixpoint mkdir (now : Z) (n : node) (p : Path) : res node :=
  match p with
  | [] =>
      match n with
      | Dir _ _ => Return n
      | File _ _ => Raise FileExistsError
      end
  | c :: p' =>
      match n with
      | File _ _ => Raise NotADirectoryError
      | Dir m es =>
          match assoc c es with
          | Some ch =>
              match mkdir now ch p' with
              | Return ch' => Return (Dir m (update c ch' es))
              | Raise e => Raise e
              end
          | None =>
              match mkdir now (Dir now []) p' with
              | Return ch' => Return (Dir now (es ++ [(c, ch')])%list)
              | Raise e => Raise e
              end
          end
      end
  end.

Definition dirnames (es : list (string * node)) : list string :=
  map fst (filter (fun e => isdir (snd e)) es).

Definition filenames (es : list (string * node)) : list string :=
  map fst (filter (fun e => negb (isdir (snd e))) es).

(** [os.walk(top)], top-down, from the node at [top].  Each directory
    yields [(root, dirs, files)]; the consumer may then prune [dirs] in
    place, which is the callback [keep]: the walk descends only into the
    directories that are kept. *)
Fixpoint walk_node (keep : string -> bool) (top : Path) (n : node)
  : list (Path * list string * list string) :=
  match n with
  | File _ _ => []
  | Dir _ es =>
      (top, dirnames es, filenames es) ::
      (fix sub (l : list (string * node)) :=
         match l with
         | [] => []
         | (c, ch) :: l' =>
             ((if isdir ch && keep c then walk_node keep (top // c) ch else [])
                ++ sub l')%list
         end) es
  end.

(** An unreadable [top] yields nothing: [os.walk] ignores the error. *)
Definition walk (keep : string -> bool) (n : node) (top : Path)
  : list (Path * list string * list string) :=
  match lookup n top with
  | Return ch => walk_node keep top ch
  | Raise _ => []
  end.

End FS.

(** ** The world and the monad of the effectful functions *)

Inductive level := DEBUG | INFO | WARNING | ERROR.

(** The trace of a run.  [Log] and [Print] are what the program writes
    through [logger] and [print]; the other events record the calls of
    [os.walk], [mkdir], [should_generate_thumbnail] and the two renderers,
    so that a statement can say that a call was or was not made.  The
    streams take every line: [logging] never lets an error of its handler
    through, and [sys.stdout] is the one of the C/POSIX locale or of UTF-8
    mode, whose error handler is [surrogateescape]. *)
Inductive event :=
| Log (l : level) (msg : string)
| Print (line : string)
| Walk (top : Path)
| Mkdir (p : Path)
| StaleCheck (src entry : Path) (force : bool)
| RenderImage (src out : Path) (size : Z)
| RenderVideo (src out : Path) (size : Z).

Record World := mkWorld {
  fs : node;
  now : Z;
  trace : list event
}.

Definition M (A : Type) : Type := World -> res A * World.

Definition ret {A} (a : A) : M A := fun w => (Return a, w).

Definition bind {A B} (m : M A) (k : A -> M B) : M B :=
  fun w =>
    match m w with
    | (Return a, w') => k a w'
    | (Raise e, w') => (Raise e, w')
    end.

Definition raise {A} (e : exn) : M A := fun w => (Raise e, w).

(** [try: body except Exception as e: handler(e)] *)
Definition try_except {A} (body : M A) (handler : exn -> M A) : M A :=
  fun w =>
    match body w with
    | (Return a, w') => (Return a, w')
    | (Raise e, w') => handler e w'
    end.

Definition emit (e : event) : M unit :=
  fun w => (Return tt, mkWorld (fs w) (now w) (trace w ++ [e])%list).

(** A computation that reads the filesystem. *)
Definition reading {A} (f : node -> res A) : M A :=
  fun w => (f (fs w), w).

(** A computation that may write the filesystem. *)
Definition writing {A} (f : Z -> node -> res A * node) : M A :=
  fun w => let '(r, n') := f (now w) (fs w) in (r, mkWorld n' (now w) (trace w)).

Definition of_res {A} (r : res A) : M A := fun w => (r, w).

(** A submitted call: the future holds what the call returned or raised. *)
Definition future {A} (m : M A) : M (res A) :=
  fun w => let '(r, w') := m w in (Return r, w').

Declare Scope monad_scope.
Delimit Scope monad_scope with monad.
Notation "x <- m ;; k" := (bind m (fun x => k))
  (at level 61, m at next level, right associativity) : monad_scope.
Notation "' pat <- m ;; k" := (bind m (fun x => match x with pat => k end))
  (at level 61, pat pattern, m at next level, right associativity) : monad_scope.
Notation "m ;; k" := (bind m (fun _ => k))
  (at level 61, right associativity) : monad_scope.

(** [for x in l: acc = body(acc, x)] *)
Fixpoint for_each {A B} (l : list A) (body : B -> A -> M B) (acc : B) : M B :=
  match l with
  | [] => ret acc
  | x :: r => bind (body acc x) (fun acc' => for_each r body acc')
  end.

Definition logger (l : level) (msg : string) : M unit := emit (Log l msg).

(** ** External collaborators

    Pillow, the [ffmpeg] subprocess, [Path.resolve] and the permissions of
    the operating system are outside the program.  Each operation of
    Pillow and the subprocess may raise, and so may [Path.resolve]; the
    ones that write take the clock and the filesystem and return the
    filesystem they leave. *)

Class Env := {
  (** [p.resolve()] *)
  resolve : Path -> res Path;
  (** [os.mkdir] refused for a directory that is not there, for a reason
      the tree does not show (permissions, a read-only or full
      filesystem): the [OSError] raised.  The refusal is the one of the
      first directory to create, so that nothing has been created. *)
  mkdir_refused : node -> Path -> option exn;
  Img : Type;
  (** [Image.open(p)] *)
  Image_open : node -> Path -> res Img;
  (** [img.mode] *)
  img_mode : Img -> string;
  (** [Image.new('RGB', img.size, (255, 255, 255))] *)
  Image_new_white : Img -> res Img;
  (** [img.convert(mode)] *)
  img_convert : Img -> string -> res Img;
  (** [img.split()[-1]] *)
  img_split_last : Img -> res Img;
  (** [background.paste(img, mask=mask)]: the background afterwards *)
  img_paste : Img -> Img -> option Img -> res Img;
  (** [img.thumbnail((size, size), LANCZOS)]: the image afterwards *)
  img_thumbnail : Img -> Z -> res Img;
  (** [img.save(p, format)] *)
  img_save : Img -> Path -> string -> Z -> node -> res unit * node;
  (** [subprocess.run(cmd, stdout=PIPE, stderr=PIPE, timeout=t).returncode] *)
  subprocess_run : list string -> Z -> Z -> node -> res Z * node
}.

(** ** The program *)

Definition IMAGE_EXTENSIONS : list string :=
  [".jpg"; ".jpeg"; ".png"; ".gif"; ".bmp"; ".webp"; ".tiff"; ".tif"].

Definition VIDEO_EXTENSIONS : list string :=
  [".mp4"; ".avi"; ".mkv"; ".mov"; ".wmv"; ".flv"; ".webm"; ".m4v"; ".mpeg"; ".mpg"].

Definition THUMBNAIL_SIZES : list (string * Z) :=
  [("normal", 128); ("large", 256)].

(** [l.append(x)] *)
Definition list_append {A} (l : list A) (x : A) : list A := (l ++ [x])%list.

(** [d[k]] on a dict kept in insertion order *)
Fixpoint dict_get {V} (d : list (string * V)) (k : string) : res V :=
  match d with
  | [] => Raise KeyError
  | (k', v) :: r => if String.eqb k k' then Return v else dict_get r k
  end.

(** [d[k] = v] *)
Fixpoint dict_set {V} (d : list (string * V)) (k : string) (v : V)
  : list (string * V) :=
  match d with
  | [] => [(k, v)]
  | (k', v') :: r =>
      if String.eqb k k' then (k', v) :: r else (k', v') :: dict_set r k v
  end.

(** [file_path.suffix.lower()] *)
Definition extension_of (file_path : Path) : string :=
  Str.lower (PurePath.suffix file_path).

(** A parsed command line. *)
Record Args := mkArgs {
  directory : Path;
  force : bool;
  workers : Z;
  dry_run : bool
}.


Section Program.

Context {E : Env}.
Local Open Scope monad_scope.

Definition get_file_uri (file_path : Path) : res string :=
  match resolve file_path with
  | Raise e => Raise e
  | Return absolute_path =>
      let uri := "file://" ++ PurePath.str absolute_path in
      Return uri
  end.

Definition get_thumbnail_filename (file_path : Path) : res string :=
  match get_file_uri file_path with
  | Raise e => Raise e
  | Return uri =>
      match encode_utf8 uri with
      | Raise e => Raise e
      | Return encoded =>
          let md5_hash := MD5.hexdigest encoded in
          Return (md5_hash ++ ".png")
      end
  end.

(** [p.mkdir(parents=True, exist_ok=True)]: with [exist_ok], whatever
    [os.mkdir] answers for a directory that is there is ignored; for one
    that is not, the refusal of the operating system or the error of the
    tree is raised, and nothing is created. *)
Definition path_mkdir (p : Path) : M unit :=
  emit (Mkdir p) ;;
  writing (fun t n =>
    if FS.is_dir n p then (Return tt, n)
    else
      match mkdir_refused n p with
      | Some e => (Raise e, n)
      | None =>
          match FS.mkdir t n p with
          | Return n' => (Return tt, n')
          | Raise e => (Raise e, n)
          end
      end).

Definition create_thumbnail_dirs (directory : Path) : M (list (string * Path)) :=
  let thumbnail_base := directory // ".thumbnails" in
  for_each (map fst THUMBNAIL_SIZES)
    (fun dirs size_name =>
       let size_dir := thumbnail_base // size_name in
       path_mkdir size_dir ;;
       ret (dict_set dirs size_name size_dir))
    [].

(** The [try] block of [generate_image_thumbnail]. *)
Definition image_try (image_path output_path : Path) (size : Z) : M bool :=
  img <- reading (fun n => Image_open n image_path) ;;
  img <- (if Str.mem (img_mode img) ["RGBA"; "LA"; "P"] then
            background <- of_res (Image_new_white img) ;;
            img <- (if String.eqb (img_mode img) "P"
                    then of_res (img_convert img "RGBA")
                    else ret img) ;;
            mask <- (if Str.mem (img_mode img) ["RGBA"; "LA"]
                     then m <- of_res (img_split_last img) ;; ret (Some m)
                     else ret None) ;;
            of_res (img_paste background img mask)
          else ret img) ;;
  img <- of_res (img_thumbnail img size) ;;
  writing (img_save img output_path "PNG") ;;
  ret true.

Definition generate_image_thumbnail (image_path output_path : Path) (size : Z)
  : M bool :=
  emit (RenderImage image_path output_path size) ;;
  try_except
    (image_try image_path output_path size)
    (fun e =>
       logger ERROR ("Error generating image thumbnail for "
                     ++ PurePath.str image_path ++ ": " ++ exn_str e) ;;
       ret false).

(** The [try] block of [generate_video_thumbnail]. *)
Definition video_try (video_path output_path : Path) (size : Z) : M bool :=
  let cmd :=
    [ "ffmpeg";
      "-i"; PurePath.str video_path;
      "-ss"; "00:00:01.000";
      "-vframes"; "1";
      "-vf"; "scale=" ++ Str.of_Z size ++ ":" ++ Str.of_Z size
             ++ ":force_original_aspect_ratio=decrease";
      "-y";
      PurePath.str output_path ] in
  returncode <- writing (subprocess_run cmd 30) ;;
  ret (returncode =? 0).

Definition generate_video_thumbnail (video_path output_path : Path) (size : Z)
  : M bool :=
  emit (RenderVideo video_path output_path size) ;;
  try_except
    (video_try video_path output_path size)
    (fun e =>
       match e with
       | TimeoutExpired =>
           logger ERROR ("Timeout generating video thumbnail for "
                         ++ PurePath.str video_path) ;;
           ret false
       | FileNotFoundError =>
           logger ERROR "ffmpeg not found. Please install ffmpeg to generate video thumbnails." ;;
           ret false
       | _ =>
           logger ERROR ("Error generating video thumbnail for "
                         ++ PurePath.str video_path ++ ": " ++ exn_str e) ;;
           ret false
       end).

(** The staleness check; it only reads the filesystem [n]. *)
Definition should_generate_thumbnail (n : node) (file_path thumbnail_path : Path)
  (force : bool) : res bool :=
  if force then Return true
  else if negb (FS.exists_ n thumbnail_path) then Return true
  else
    match FS.stat_mtime n file_path with
    | Raise e => Raise e
    | Return src_mtime =>
        match FS.stat_mtime n thumbnail_path with
        | Raise e => Raise e
        | Return thumb_mtime =>
            if src_mtime >? thumb_mtime then Return true else Return false
        end
    end.

(** [status = 'success' if any('ok' in r for r in results) else 'failed'] *)
Definition status_of (results : list string) : string :=
  if existsb (Str.contains "ok") results then "success" else "failed".

(** The body of the loop of [process_file] over the variants. *)
Definition variant_step (file_path : Path) (force : bool) (extension : string)
  (thumbnail_dirs : list (string * Path)) (thumbnail_filename : string)
  (results : list string) (variant : string * Z) : M (list string) :=
  let '(size_name, size) := variant in
  size_dir <- of_res (dict_get thumbnail_dirs size_name) ;;
  let output_path := size_dir // thumbnail_filename in
  emit (StaleCheck file_path output_path force) ;;
  stale <- reading (fun n =>
             should_generate_thumbnail n file_path output_path force) ;;
  if negb stale then
    ret (list_append results (size_name ++ ":cached"))
  else
    success <- (if Str.mem extension IMAGE_EXTENSIONS
                then generate_image_thumbnail file_path output_path size
                else generate_video_thumbnail file_path output_path size) ;;
    ret (list_append results
           (size_name ++ ":" ++ (if success then "ok" else "failed"))).

(** The loop itself: the result strings. *)
Definition process_variants (file_path : Path) (force : bool) (extension : string)
  (thumbnail_dirs : list (string * Path)) (thumbnail_filename : string)
  : M (list string) :=
  for_each THUMBNAIL_SIZES
    (variant_step file_path force extension thumbnail_dirs thumbnail_filename)
    [].

Definition process_file (file_path : Path) (force : bool)
  : M (Path * string * string) :=
  let extension := extension_of file_path in
  if negb (Str.mem extension IMAGE_EXTENSIONS)
     && negb (Str.mem extension VIDEO_EXTENSIONS)
  then ret (file_path, "skipped", "unsupported")
  else
    thumbnail_dirs <- create_thumbnail_dirs (PurePath.parent file_path) ;;
    thumbnail_filename <- of_res (get_thumbnail_filename file_path) ;;
    results <- process_variants file_path force extension
                 thumbnail_dirs thumbnail_filename ;;
    let status := status_of results in
    ret (file_path, status, Str.join "," results).

Definition default_exclude_dirs : list string :=
  [".thumbnails"; "@eaDir"; ".DS_Store"; "Thumbs.db"].

(** The scanner; it only reads the filesystem [n]. *)
Definition find_media_files (n : node) (root_dir : Path)
  (exclude_dirs : option (list string)) : list Path :=
  let exclude_dirs :=
    match exclude_dirs with
    | None => default_exclude_dirs
    | Some s => s
    end in
  flat_map
    (fun '(root, dirs, files) =>
       filter
         (fun file_path =>
            let extension := extension_of file_path in
            Str.mem extension IMAGE_EXTENSIONS || Str.mem extension VIDEO_EXTENSIONS)
         (map (fun file => root // file) files))
    (FS.walk (fun d => negb (Str.mem d exclude_dirs)) n root_dir).

(** [executor.submit(process_file, file_path, force)] for every file: each
    unit of work runs to its end and leaves its result, or the exception it
    raised, in its future.  The units are run in submission order, one
    schedule of the pool. *)
Fixpoint submit_all (media_files : list Path) (force : bool)
  : M (list (res (Path * string * string))) :=
  match media_files with
  | [] => ret []
  | file_path :: r =>
      fut <- future (process_file file_path force) ;;
      futs <- submit_all r force ;;
      ret (fut :: futs)
  end.

Record Counts := mkCounts { successful : Z; failed : Z; cached : Z }.

(** The body of the loop over [as_completed(futures)]; [future.result()]
    raises again what the unit of work raised. *)
Definition tally (c : Counts) (fut : res (Path * string * string)) : M Counts :=
  '(file_path, status, details) <- of_res fut ;;
  if String.eqb status "success" then
    logger INFO ("✓ " ++ PurePath.name file_path ++ " - " ++ details) ;;
    ret (mkCounts (successful c + 1) (failed c) (cached c))
  else if String.eqb status "failed" then
    logger WARNING ("✗ " ++ PurePath.name file_path ++ " - " ++ details) ;;
    ret (mkCounts (successful c) (failed c + 1) (cached c))
  else if Str.contains "cached" details then
    logger DEBUG ("⊙ " ++ PurePath.name file_path ++ " - " ++ details) ;;
    ret (mkCounts (successful c) (failed c) (cached c + 1))
  else ret c.

(** The loop: the futures are taken in submission order, one of the
    completion orders. *)
Definition collect (futures : list (res (Path * string * string))) : M Counts :=
  for_each futures tally (mkCounts 0 0 0).

(** [ThreadPoolExecutor(max_workers=n)] refuses a pool without workers. *)
Definition ThreadPoolExecutor (max_workers : Z) : M unit :=
  if max_workers <=? 0 then raise ValueError else ret tt.

Definition len {A} (l : list A) : string := Str.of_Z (Z.of_nat (List.length l)).

(** [main()] from the parsed arguments on; the call of
    [parser.parse_args()] before them is in [script]. *)
Definition main (args : Args) : M Z :=
  let root_dir := directory args in
  root_exists <- reading (fun n => Return (FS.exists_ n root_dir)) ;;
  if negb root_exists then
    logger ERROR ("Directory does not exist: " ++ PurePath.str root_dir) ;;
    ret 1
  else
    root_is_dir <- reading (fun n => Return (FS.is_dir n root_dir)) ;;
    if negb root_is_dir then
      logger ERROR ("Not a directory: " ++ PurePath.str root_dir) ;;
      ret 1
    else
      logger INFO ("Scanning for media files in " ++ PurePath.str root_dir ++ "...") ;;
      emit (Walk root_dir) ;;
      media_files <- reading (fun n => Return (find_media_files n root_dir None)) ;;
      logger INFO ("Found " ++ len media_files ++ " media files") ;;
      if dry_run args then
        for_each media_files
          (fun _ file_path => emit (Print ("Would process: " ++ PurePath.str file_path)))
          tt ;;
        ret 0
      else
        ThreadPoolExecutor (workers args) ;;
        futures <- submit_all media_files (force args) ;;
        c <- collect futures ;;
        logger INFO (String.concat "" (repeat "=" 60)) ;;
        logger INFO "Processing complete!" ;;
        logger INFO ("  Successful: " ++ Str.of_Z (successful c)) ;;
        logger INFO ("  Cached: " ++ Str.of_Z (cached c)) ;;
        logger INFO ("  Failed: " ++ Str.of_Z (failed c)) ;;
        logger INFO ("  Total: " ++ len media_files) ;;
        ret (if failed c =? 0 then 0 else 1).

End Program.


(** ** A small installation to run the program on

    Pillow reads any file but one whose data is ["corrupt"] and writes the
    thumbnail at the clock's time; [ffmpeg] is not installed; paths are
    already canonical and the operating system refuses nothing. *)

Module Demo.

Fixpoint write (t : Z) (n : node) (p : Path) (data : string) : res node :=
  match p with
  | [] =>
      match n with
      | File _ _ => Return (File t data)
      | Dir _ _ => Raise (OtherError "Is a directory")
      end
  | c :: p' =>
      match n with
      | File _ _ => Raise NotADirectoryError
      | Dir m es =>
          match FS.assoc c es with
          | Some ch =>
              match write t ch p' data with
              | Return ch' => Return (Dir m (FS.update c ch' es))
              | Raise e => Raise e
              end
          | None =>
              match p' with
              | [] => Return (Dir t (es ++ [(c, File t data)])%list)
              | _ => Raise FileNotFoundError
              end
          end
      end
  end.

#[local] Instance env : Env := {|
  resolve := fun p => Return p;
  mkdir_refused := fun _ _ => None;
  Img := string;
  Image_open := fun n p =>
    match FS.lookup n p with
    | Return (File _ d) =>
        if String.eqb d "corrupt" then Raise UnidentifiedImageError else Return d
    | Return (Dir _ _) => Raise (OtherError "Is a directory")
    | Raise e => Raise e
    end;
  img_mode := fun _ => "RGB";
  Image_new_white := fun i => Return i;
  img_convert := fun i _ => Return i;
  img_split_last := fun i => Return i;
  img_paste := fun bg _ _ => Return bg;
  img_thumbnail := fun i _ => Return i;
  img_save := fun i p _ t n =>
    match write t n p ("PNG " ++ i) with
    | Return n' => (Return tt, n')
    | Raise e => (Raise e, n)
    end;
  subprocess_run := fun _ _ _ n => (Raise FileNotFoundError, n)
|}.

(** [/srv/media] with a photo, a clip, a text file, a sub-directory and a
    synology index directory. *)
Definition media : node :=
  Dir 0
    [ ("photo.jpg", File 10 "jpeg");
      ("clip.mp4", File 10 "mp4");
      ("notes.txt", File 10 "text");
      ("2023", Dir 0 [ ("IMG_1.JPEG", File 20 "jpeg") ]);
      ("@eaDir", Dir 0 [ ("photo.jpg", Dir 0 [ ("SYNOPHOTO_THUMB_M.jpg", File 5 "jpeg") ]) ]) ].

Definition root : node := Dir 0 [ ("srv", Dir 0 [ ("media", media) ]) ].

Definition world (n : node) (t : Z) : World := mkWorld n t [].

Definition args (d : Path) : Args := mkArgs d false 4 false.

(** [/data/pics], where a regular file is named [.thumbnails], and
    [/data/good]. *)
Definition blocked : node :=
  Dir 0
    [ ("data",
       Dir 0
         [ ("pics", Dir 0 [ ("a.jpg", File 10 "jpeg"); (".thumbnails", File 3 "") ]);
           ("good", Dir 0 [ ("b.jpg", File 10 "jpeg") ]) ]) ].

(** [/v] with one clip. *)
Definition clips : node := Dir 0 [ ("v", Dir 0 [ ("clip.mp4", File 10 "mp4") ]) ].

(** [/p] with one photo. *)
Definition photos (mtime : Z) : node :=
  Dir 0 [ ("p", Dir 0 [ ("photo.jpg", File mtime "jpeg") ]) ].

(** [/p] once its photo of time 10 has been processed at time 100. *)
Definition photos_done : node :=
  Eval vm_compute in fs (snd (main (args ["p"]) (world (photos 10) 100))).

(** [/p] once a photo dated 1000 has been processed at time 100. *)
Definition future_done : node :=
  Eval vm_compute in fs (snd (main (args ["p"]) (world (photos 1000) 100))).

(** [/v] once its clip has been processed at time 100, without [ffmpeg]. *)
Definition clips_done : node :=
  Eval vm_compute in fs (snd (main (args ["v"]) (world clips 100))).

(** [/srv/docs] holds no media. *)
Definition docs : node :=
  Dir 0 [ ("srv", Dir 0 [ ("docs", Dir 0 [ ("notes.txt", File 10 "text") ]) ]) ].

(** A name in Latin-1, [caf\xe9.jpg]: not valid UTF-8. *)
Definition latin1_name : string := "caf" ++ String (ascii_of_nat 233) ".jpg".

(** [/q] with one photo of that name. *)
Definition cafe : node := Dir 0 [ ("q", Dir 0 [ (latin1_name, File 10 "jpeg") ]) ].

(** [clip.mKv] with U+212A KELVIN SIGN for the [K]. *)
Definition kelvin_name : string :=
  "clip.m" ++ String (ascii_of_nat 226)
                (String (ascii_of_nat 132) (String (ascii_of_nat 170) "v")).

(** The same installation on a filesystem mounted read-only. *)
Definition read_only : Env := {|
  resolve := fun p => Return p;
  mkdir_refused := fun _ _ => Some PermissionError;
  Img := string;
  Image_open := Image_open (Env := env);
  img_mode := img_mode (Env := env);
  Image_new_white := Image_new_white (Env := env);
  img_convert := img_convert (Env := env);
  img_split_last := img_split_last (Env := env);
  img_paste := img_paste (Env := env);
  img_thumbnail := img_thumbnail (Env := env);
  img_save := fun _ _ _ _ n => (Raise PermissionError, n);
  subprocess_run := subprocess_run (Env := env)
|}.

End Demo.

(** * Vocabulary of the statements *)

(** Unfolding of the monad's operations. *)
Ltac unfold_monad :=
  unfold bind, ret, raise, try_except, emit, reading, writing, of_res,
    logger, future in *.

(** Kinds of events. *)
Definition is_log (e : event) : bool :=
  match e with
  | Log _ _ => true
  | _ => false
  end.

Definition is_render (e : event) : bool :=
  match e with
  | RenderImage _ _ _ | RenderVideo _ _ _ => true
  | _ => false
  end.

(** What a dry run may leave in the trace: log lines, report lines and the
    walk; no directory creation, staleness check or render. *)
Definition is_report (e : event) : bool :=
  match e with
  | Log _ _ | Print _ | Walk _ => true
  | _ => false
  end.

(** The world once [e] has been recorded. *)
Definition after (e : event) (w : World) : World :=
  mkWorld (fs w) (now w) (trace w ++ [e])%list.

(** Computations that leave the trace and the clock alone. *)
Definition quiet {A} (m : M A) : Prop :=
  forall w, trace (snd (m w)) = trace w /\ now (snd (m w)) = now w.

(** Computations that, when they return, return a value in [P]. *)
Definition returning {A} (P : A -> Prop) (m : M A) : Prop :=
  forall w a w', m w = (Return a, w') -> P a.


(** The file is one the program makes thumbnails of. *)
Definition is_media (file_path : Path) : bool :=
  Str.mem (extension_of file_path) IMAGE_EXTENSIONS
  || Str.mem (extension_of file_path) VIDEO_EXTENSIONS.

Definition is_lower_hex (c : ascii) : bool :=
  existsb (Ascii.eqb c) (list_ascii_of_string "0123456789abcdef").

(** The entry at [entry] is at least as new as the source [src]. *)
Definition fresh (n : node) (src entry : Path) : Prop :=
  exists ms mt,
    FS.stat_mtime n src = Return ms /\ FS.stat_mtime n entry = Return mt /\ ms <= mt.

(** What one variant of a file leaves behind: the recorded word [x] and the
    events [r] after its staleness check. *)
Definition variant_outcome (n : node) (src out : Path) (force : bool) (size : Z)
  (x : string) (r : list event) : Prop :=
  (x = "cached" /\ r = []
   /\ should_generate_thumbnail n src out force = Return false)
  \/ ((x = "ok" \/ x = "failed")
      /\ should_generate_thumbnail n src out force = Return true
      /\ exists logs,
           forallb is_log logs = true
           /\ (r = RenderImage src out size :: logs
               \/ r = RenderVideo src out size :: logs)).

(** The dictionary [create_thumbnail_dirs(d)] returns. *)
Definition standard_dirs (d : Path) : list (string * Path) :=
  [("normal", d // ".thumbnails" // "normal");
   ("large", d // ".thumbnails" // "large")].

Section Vocabulary.

Context {E : Env}.

(** The thumbnail name of the file can be computed: its path resolves and
    its URI can be encoded. *)
Definition hashable (file_path : Path) : Prop :=
  exists name, get_thumbnail_filename file_path = Return name.

(** The thumbnail name of a file that has one. *)
Definition thumbnail_name (file_path : Path) : string :=
  match get_thumbnail_filename file_path with
  | Return name => name
  | Raise _ => ""
  end.

(** Where the thumbnail of [file_path] for the variant [size_name] lives. *)
Definition entry_path (file_path : Path) (size_name : string) : Path :=
  PurePath.parent file_path // ".thumbnails" // size_name
    // thumbnail_name file_path.

(** The renderer of a file with extension [ext]. *)
Definition render_call (ext : string) (src out : Path) (size : Z) : M bool :=
  if Str.mem ext IMAGE_EXTENSIONS
  then generate_image_thumbnail src out size
  else generate_video_thumbnail src out size.

(** [units_run force files w futures w']: the unit of work of every file
    of [files] has been run, each on the world the one before it left,
    whether that one returned or raised; [futures] holds what each of them
    returned or raised and [w'] is the world after the last. *)
Inductive units_run (force : bool)
  : list Path -> World -> list (res (Path * string * string)) -> World -> Prop :=
| units_none w : units_run force [] w [] w
| units_next p files w r w1 futures w' :
    process_file p force w = (r, w1) ->
    units_run force files w1 futures w' ->
    units_run force (p :: files) w (r :: futures) w'.

End Vocabulary.

(** [descends n ds n']: [n'] is reached from [n] through the entries named
    [ds], one directory level per name. *)
Inductive descends : node -> list string -> node -> Prop :=
| descends_here n : descends n [] n
| descends_down m es c ch ds n' :
    In (c, ch) es -> descends ch ds n' -> descends (Dir m es) (c :: ds) n'.

(** The names the scanner excludes: the given set, or the default one. *)
Definition excluded_names (exclude_dirs : option (list string)) : list string :=
  match exclude_dirs with
  | None => [".thumbnails"; "@eaDir"; ".DS_Store"; "Thumbs.db"]
  | Some s => s
  end.


(** How many futures hold an outcome of status [s]. *)
Definition count_status (s : string) (futures : list (res (Path * string * string)))
  : Z :=
  Z.of_nat
    (List.length
       (filter
          (fun fut =>
             match fut with
             | Return (_, status, _) => String.eqb status s
             | Raise _ => false
             end)
          futures)).

(** The future of a unit of work holds an outcome, not an exception. *)
Definition returned {A} (fut : res A) : Prop := exists o, fut = Return o.

(** What [main] has logged once the scan is done. *)
Definition scan_events (n : node) (root_dir : Path) : list event :=
  [ Log INFO ("Scanning for media files in " ++ PurePath.str root_dir ++ "...");
    Walk root_dir;
    Log INFO ("Found " ++ len (find_media_files n root_dir None) ++ " media files") ].

Definition scanned (args : Args) (w : World) : World :=
  mkWorld (fs w) (now w) (trace w ++ scan_events (fs w) (directory args))%list.

(** The summary lines of a run. *)
Definition summary_events (c : Counts) (total : string) : list event :=
  [ Log INFO (String.concat "" (repeat "=" 60));
    Log INFO "Processing complete!";
    Log INFO ("  Successful: " ++ Str.of_Z (successful c));
    Log INFO ("  Cached: " ++ Str.of_Z (cached c));
    Log INFO ("  Failed: " ++ Str.of_Z (failed c));
    Log INFO ("  Total: " ++ total) ].


Section RunVocabulary.

Context {E : Env}.

(** The events of a unit of work that finds both entries fresh. *)
Definition fresh_events (p : Path) : list event :=
  [ Mkdir (PurePath.parent p // ".thumbnails" // "normal");
    Mkdir (PurePath.parent p // ".thumbnails" // "large");
    StaleCheck p (entry_path p "normal") false;
    StaleCheck p (entry_path p "large") false ].

End RunVocabulary.

(** * Vocabulary of the further properties *)

(** The command line of [ffmpeg] for one frame of [src] at one second,
    fitted into a square of [size] pixels and written over [out]. *)
Definition ffmpeg_cmd (src out : Path) (size : Z) : list string :=
  [ "ffmpeg"; "-i"; PurePath.str src; "-ss"; "00:00:01.000"; "-vframes"; "1";
    "-vf";
    "scale=" ++ Str.of_Z size ++ ":" ++ Str.of_Z size
      ++ ":force_original_aspect_ratio=decrease";
    "-y"; PurePath.str out ].

(** The render event of a file with extension [ext]. *)
Definition render_event (ext : string) : Path -> Path -> Z -> event :=
  if Str.mem ext IMAGE_EXTENSIONS then RenderImage else RenderVideo.

(** What the future of the unit of work of [p] can hold: an outcome for
    [p], or, for a media file only, an exception. *)
Definition unit_result (p : Path) (fut : res (Path * string * string)) : Prop :=
  match fut with
  | Return (fp, status, details) =>
      fp = p
      /\ ((is_media p = true /\ (status = "success" \/ status = "failed"))
          \/ (is_media p = false /\ status = "skipped" /\ details = "unsupported"))
  | Raise e => is_media p = true
  end.

(** A regular file is in the way of [p]: at [p] or at one of its
    ancestors. *)
Definition file_in_the_way (n : node) (p : Path) : Prop :=
  exists k m d, FS.lookup n (firstn k p) = Return (File m d).

(** Names are unique within every directory of the tree. *)
Fixpoint unique_names (n : node) : Prop :=
  match n with
  | File _ _ => True
  | Dir _ es =>
      NoDup (map fst es)
      /\ (fix all (l : list (string * node)) : Prop :=
            match l with
            | [] => True
            | (_, ch) :: l' => unique_names ch /\ all l'
            end) es
  end.

(** The character does not occur in the string. *)
Definition free_of (c : ascii) (s : string) : Prop :=
  ~ In c (list_ascii_of_string s).

(** How many futures hold an outcome that the result loop counts as
    cached: neither [success] nor [failed], with "cached" in its details. *)
Definition count_cached (futures : list (res (Path * string * string))) : Z :=
  Z.of_nat
    (List.length
       (filter
          (fun fut =>
             match fut with
             | Return (_, status, details) =>
                 negb (String.eqb status "success")
                 && negb (String.eqb status "failed")
                 && Str.contains "cached" details
             | Raise _ => false
             end)
          futures)).

(** The word a rendered variant records. *)
Definition render_word (success : bool) : string :=
  if success then "ok" else "failed".

(** The media files of one directory the walk yields. *)
Definition media_in (yield : Path * list string * list string) : list Path :=
  let '(root, _, files) := yield in
  filter is_media (map (fun file => root // file) files).

(** The components of the path are non-empty and hold no slash. *)
Definition proper_path (p : Path) : Prop :=
  Forall (fun c => c <> "" /\ free_of "/" c) p.
(** * Properties *)

(** ** Strings, tables and MD5 *)

Lemma mem_In x S : Str.mem x S = true <-> In x S.
Proof.
  unfold Str.mem. rewrite existsb_exists. split.
  - intros (y & Hy & Heq). apply String.eqb_eq in Heq. now subst.
  - intros H. exists x. split; [assumption | apply String.eqb_refl].
Qed.

Lemma mem_not_In x S : Str.mem x S = false <-> ~ In x S.
Proof.
  rewrite <- mem_In. destruct (Str.mem x S); intuition congruence.
Qed.

Example md5_empty : MD5.hexdigest [] = "d41d8cd98f00b204e9800998ecf8427e".
Proof. vm_compute. reflexivity. Qed.

Example md5_abc :
  MD5.hexdigest (Str.bytes "abc") = "900150983cd24fb0d6963f7d28e17f72".
Proof. vm_compute. reflexivity. Qed.

Example md5_two_blocks :
  MD5.hexdigest
    (Str.bytes "file:///srv/media/photos/2023/holiday-pictures/IMG_0001.jpeg")
  = "93d2fb2465bca107263e92c1bea9cad6".
Proof. vm_compute. reflexivity. Qed.

Example md5_padding_block :
  MD5.hexdigest (repeat 97 56) = "3b0c8ac703f828b04c6c197006d17218".
Proof. vm_compute. reflexivity. Qed.

Example suffix_examples :
  map extension_of
    [["a.JPG"]; [".jpg"]; ["x"; "a.tar.GZ"]; ["a."]; ["noext"]; []]
  = [".jpg"; ""; ".gz"; ""; ""; ""].
Proof. reflexivity. Qed.

(** None of the strings a variant can record holds "ok" but the one of a
    successful render. *)
Example contains_ok_table :
  map (Str.contains "ok")
    ["normal:cached"; "normal:failed"; "normal:ok";
     "large:cached"; "large:failed"; "large:ok"]
  = [false; false; true; false; false; true].
Proof. reflexivity. Qed.

(** ** The staleness check *)

Lemma exists_stat n p :
  FS.exists_ n p = true <-> exists m, FS.stat_mtime n p = Return m.
Proof.
  unfold FS.exists_, FS.stat_mtime. destruct (FS.lookup n p); split.
  - eauto.
  - reflexivity.
  - discriminate.
  - intros [m Hm]. discriminate.
Qed.

Lemma should_generate_forced n src entry :
  should_generate_thumbnail n src entry true = Return true.
Proof. reflexivity. Qed.

Lemma should_generate_absent n src entry force :
  FS.exists_ n entry = false ->
  should_generate_thumbnail n src entry force = Return true.
Proof.
  intros H. unfold should_generate_thumbnail. rewrite H. now destruct force.
Qed.

Lemma should_generate_compare n src entry ms mt :
  FS.stat_mtime n src = Return ms ->
  FS.stat_mtime n entry = Return mt ->
  should_generate_thumbnail n src entry false = Return (ms >? mt).
Proof.
  intros Hs He. unfold should_generate_thumbnail.
  assert (Hx : FS.exists_ n entry = true) by (apply exists_stat; eauto).
  rewrite Hx, Hs, He. simpl. now destruct (ms >? mt).
Qed.

(** The one way the check fails: the entry is there, nothing is forced and
    the source cannot be examined. *)
Lemma should_generate_raises n src entry e :
  FS.exists_ n entry = true ->
  FS.stat_mtime n src = Raise e ->
  should_generate_thumbnail n src entry false = Raise e.
Proof.
  intros Hx Hs. unfold should_generate_thumbnail. now rewrite Hx, Hs.
Qed.

(** C1. For a source file with modification time [ms], the staleness check
    returns a boolean; it is [true] exactly when the force flag is set, or
    the entry path does not exist, or [ms] is strictly greater than the
    entry's modification time, and [false] exactly when nothing is forced
    and the entry exists with a modification time at least [ms]. *)
Theorem should_generate_thumbnail_spec
  (n : node) (src entry : Path) (force : bool) (ms : Z) :
  FS.stat_mtime n src = Return ms ->
  exists b,
    should_generate_thumbnail n src entry force = Return b
    /\ (b = true <->
        force = true \/ FS.exists_ n entry = false
        \/ exists mt, FS.stat_mtime n entry = Return mt /\ ms > mt)
    /\ (b = false <->
        force = false /\ FS.exists_ n entry = true
        /\ exists mt, FS.stat_mtime n entry = Return mt /\ mt >= ms).
Proof.
  intros Hs. destruct force.
  - exists true. rewrite should_generate_forced.
    repeat split; auto; intros; try discriminate.
    destruct H as (? & _); discriminate.
  - destruct (FS.exists_ n entry) eqn:Hx.
    + destruct (proj1 (exists_stat n entry) Hx) as [mt Ht].
      exists (ms >? mt). rewrite (should_generate_compare _ _ _ _ _ Hs Ht).
      split; [reflexivity |]. split; split.
      * intros H. right; right. exists mt. split; [assumption | lia].
      * intros [H | [H | (mt' & Ht' & Hgt)]]; try discriminate.
        rewrite Ht in Ht'. injection Ht' as <-. lia.
      * intros H. repeat split; auto. exists mt. split; [assumption | lia].
      * intros (_ & _ & mt' & Ht' & Hge).
        rewrite Ht in Ht'. injection Ht' as <-. lia.
    + exists true. rewrite (should_generate_absent _ _ _ _ Hx).
      repeat split; auto; intros; try discriminate.
      destruct H as (_ & ? & _); discriminate.
Qed.

Lemma should_generate_thumbnail_spec_witness :
  exists b,
    should_generate_thumbnail Demo.root
      ["srv"; "media"; "2023"; "IMG_1.JPEG"] ["srv"; "media"; "photo.jpg"] false
    = Return b
    /\ (b = true <->
        false = true
        \/ FS.exists_ Demo.root ["srv"; "media"; "photo.jpg"] = false
        \/ exists mt,
             FS.stat_mtime Demo.root ["srv"; "media"; "photo.jpg"] = Return mt
             /\ 20 > mt)
    /\ (b = false <->
        false = false
        /\ FS.exists_ Demo.root ["srv"; "media"; "photo.jpg"] = true
        /\ exists mt,
             FS.stat_mtime Demo.root ["srv"; "media"; "photo.jpg"] = Return mt
             /\ mt >= 20).
Proof.
  apply (should_generate_thumbnail_spec Demo.root
           ["srv"; "media"; "2023"; "IMG_1.JPEG"] ["srv"; "media"; "photo.jpg"]
           false 20).
  reflexivity.
Defined.

Lemma quiet_ret {A} (a : A) : quiet (ret a).
Proof. intros w. split; reflexivity. Qed.

Lemma quiet_of_res {A} (r : res A) : quiet (of_res r).
Proof. intros w. split; reflexivity. Qed.

Lemma quiet_reading {A} (f : node -> res A) : quiet (reading f).
Proof. intros w. split; reflexivity. Qed.

Lemma quiet_writing {A} (f : Z -> node -> res A * node) : quiet (writing f).
Proof.
  intros w. unfold writing. destruct (f (now w) (fs w)). split; reflexivity.
Qed.

Lemma quiet_bind {A B} (m : M A) (k : A -> M B) :
  quiet m -> (forall a, quiet (k a)) -> quiet (bind m k).
Proof.
  intros Hm Hk w. unfold bind. specialize (Hm w).
  destruct (m w) as [[a | e] w1]; simpl in *.
  - destruct (Hk a w1) as [H1 H2]. rewrite H1, H2. exact Hm.
  - exact Hm.
Qed.

Lemma returning_ret {A} (P : A -> Prop) (a : A) : P a -> returning P (ret a).
Proof. intros H w a' w' Heq. injection Heq as <- _. exact H. Qed.

Lemma returning_bind {A B} (P : B -> Prop) (m : M A) (k : A -> M B) :
  (forall a, returning P (k a)) -> returning P (bind m k).
Proof.
  intros Hk w b w' Heq. unfold bind in Heq.
  destruct (m w) as [[a | e] w1]; [eapply Hk; eassumption | discriminate].
Qed.

Ltac quiet_tac :=
  repeat first
    [ apply quiet_ret | apply quiet_of_res | apply quiet_reading
    | apply quiet_writing | apply quiet_bind; [| intros ]
    | match goal with |- quiet (if ?b then _ else _) => destruct b end ].

(** ** The renderers *)

Section Rendering.

Context {E : Env}.

Lemma image_try_quiet src out size : quiet (image_try src out size).
Proof. unfold image_try. quiet_tac. Qed.

Lemma video_try_quiet src out size : quiet (video_try src out size).
Proof. unfold video_try. quiet_tac. Qed.

Lemma image_try_trace src out size w :
  trace (snd (image_try src out size w)) = trace w.
Proof. apply image_try_quiet. Qed.

Lemma video_try_trace src out size w :
  trace (snd (video_try src out size w)) = trace w.
Proof. apply video_try_quiet. Qed.

(** The exception handler of the image renderer turns whatever the [try]
    block raised into [False]. *)
Lemma generate_image_thumbnail_eq src out size w :
  let w0 := after (RenderImage src out size) w in
  generate_image_thumbnail src out size w =
  match image_try src out size w0 with
  | (Return b, w1) => (Return b, w1)
  | (Raise e, w1) =>
      (Return false,
       after (Log ERROR ("Error generating image thumbnail for "
                         ++ PurePath.str src ++ ": " ++ exn_str e)) w1)
  end.
Proof.
  unfold generate_image_thumbnail, after. unfold_monad. simpl.
  destruct (image_try src out size _) as [[b | e] w1]; reflexivity.
Qed.

Lemma generate_video_thumbnail_eq src out size w :
  let w0 := after (RenderVideo src out size) w in
  exists msg,
    generate_video_thumbnail src out size w =
    match video_try src out size w0 with
    | (Return b, w1) => (Return b, w1)
    | (Raise e, w1) => (Return false, after (Log ERROR msg) w1)
    end.
Proof.
  unfold generate_video_thumbnail, after. unfold_monad. simpl.
  destruct (video_try src out size _) as [[b | e] w1].
  - exists "". reflexivity.
  - destruct e; eexists; reflexivity.
Qed.

Lemma image_try_returns_true src out size w b w' :
  image_try src out size w = (Return b, w') -> b = true.
Proof.
  revert w b w'. change (returning (fun b => b = true) (image_try src out size)).
  unfold image_try. repeat (apply returning_bind; intros).
  now apply returning_ret.
Qed.

(** C7. Whatever Pillow, the filesystem and the [ffmpeg] subprocess do, the
    two renderers return a boolean and never raise: the result is [true]
    when the [try] block ran to its end (and, for a video, the return code
    is 0) and [false] when anything in it raised, be it the decoder, an
    unsupported format, the time-out, the missing tool or the write. *)
Theorem renderers_never_raise (src out : Path) (size : Z) (w : World) :
  (exists b w',
      generate_image_thumbnail src out size w = (Return b, w')
      /\ b = match fst (image_try src out size (after (RenderImage src out size) w)) with
             | Return _ => true
             | Raise _ => false
             end)
  /\ (exists b w',
         generate_video_thumbnail src out size w = (Return b, w')
         /\ b = match fst (video_try src out size (after (RenderVideo src out size) w)) with
                | Return ok => ok
                | Raise _ => false
                end).
Proof.
  split.
  - rewrite generate_image_thumbnail_eq. cbv zeta.
    destruct (image_try src out size _) as [[b | e] w1] eqn:Hb.
    + exists b, w1. split; [reflexivity |]. simpl.
      eapply image_try_returns_true; eassumption.
    + eexists _, _. split; reflexivity.
  - destruct (generate_video_thumbnail_eq src out size w) as [msg ->].
    destruct (video_try src out size _) as [[b | e] w1].
    + exists b, w1. split; reflexivity.
    + eexists _, _. split; reflexivity.
Qed.

(** The video [try] block: the result of the subprocess decides. *)
Lemma video_try_eq src out size w :
  exists cmd,
    fst (video_try src out size w) =
    match fst (subprocess_run cmd 30 (now w) (fs w)) with
    | Return code => Return (code =? 0)
    | Raise e => Raise e
    end.
Proof.
  unfold video_try.
  match goal with |- context [subprocess_run ?c 30] => exists c end.
  unfold_monad. simpl.
  destruct (subprocess_run _ 30 (now w) (fs w)) as [[c | e] n']; reflexivity.
Qed.

Lemma image_open_fails src out size w e :
  Image_open (fs w) src = Raise e ->
  fst (generate_image_thumbnail src out size w) = Return false.
Proof.
  intros H. rewrite generate_image_thumbnail_eq. cbv zeta.
  unfold image_try. unfold_monad. simpl. rewrite H. reflexivity.
Qed.

Lemma generate_image_thumbnail_trace src out size w :
  exists l,
    trace (snd (generate_image_thumbnail src out size w))
    = (trace w ++ RenderImage src out size :: l)%list
    /\ forallb is_log l = true.
Proof.
  rewrite generate_image_thumbnail_eq. cbv zeta.
  pose proof (image_try_trace src out size (after (RenderImage src out size) w)) as Ht.
  destruct (image_try src out size _) as [[b | e] w1]; simpl in *.
  - exists []. rewrite Ht. split; reflexivity.
  - eexists [_]. rewrite Ht, <- app_assoc. split; reflexivity.
Qed.

Lemma generate_video_thumbnail_trace src out size w :
  exists l,
    trace (snd (generate_video_thumbnail src out size w))
    = (trace w ++ RenderVideo src out size :: l)%list
    /\ forallb is_log l = true.
Proof.
  destruct (generate_video_thumbnail_eq src out size w) as [msg ->].
  pose proof (video_try_trace src out size (after (RenderVideo src out size) w)) as Ht.
  destruct (video_try src out size _) as [[b | e] w1]; simpl in *.
  - exists []. rewrite Ht. split; reflexivity.
  - eexists [_]. rewrite Ht, <- app_assoc. split; reflexivity.
Qed.

End Rendering.

(** ** The filesystem *)

Lemma update_same c ch es :
  FS.assoc c es = Some ch -> FS.update c ch es = es.
Proof.
  induction es as [| [k n] es IH]; simpl; [discriminate |].
  destruct (String.eqb c k) eqn:Hck.
  - intros H. injection H as <-. reflexivity.
  - intros H. now rewrite IH.
Qed.

(** [mkdir(parents=True, exist_ok=True)] on a directory that is there
    changes nothing. *)
Lemma mkdir_existing t p : forall n,
  FS.is_dir n p = true -> FS.mkdir t n p = Return n.
Proof.
  unfold FS.is_dir. induction p as [| c p IH]; intros n H; simpl in *.
  - destruct n; [discriminate | reflexivity].
  - destruct n as [m d | m es]; [discriminate |].
    destruct (FS.assoc c es) as [ch |] eqn:Hc; [| discriminate].
    rewrite (IH ch H). now rewrite (update_same _ _ _ Hc).
Qed.

Lemma lookup_parent_is_dir c x p : forall n,
  FS.lookup n (p // c) = Return x -> FS.is_dir n p = true.
Proof.
  unfold FS.is_dir, PurePath.div.
  induction p as [| d p IH]; intros n H; simpl in *.
  - destruct n; [discriminate | reflexivity].
  - destruct n as [m dt | m es]; [discriminate |].
    destruct (FS.assoc d es) as [ch |]; [| discriminate].
    now apply IH.
Qed.

Lemma stat_parent_is_dir n p c m :
  FS.stat_mtime n (p // c) = Return m -> FS.is_dir n p = true.
Proof.
  unfold FS.stat_mtime. destruct (FS.lookup n (p // c)) eqn:H; [| discriminate].
  intros _. eapply lookup_parent_is_dir; eassumption.
Qed.

Lemma should_generate_fresh n src entry :
  fresh n src entry -> should_generate_thumbnail n src entry false = Return false.
Proof.
  intros (ms & mt & Hs & He & Hle).
  rewrite (should_generate_compare _ _ _ _ _ Hs He).
  f_equal. lia.
Qed.

(** ** One unit of work *)

Section ProcessFile.

Context {E : Env}.

Lemma path_mkdir_eq p w :
  path_mkdir p w =
  if FS.is_dir (fs w) p then (Return tt, after (Mkdir p) w)
  else
    match mkdir_refused (fs w) p with
    | Some e => (Raise e, after (Mkdir p) w)
    | None =>
        match FS.mkdir (now w) (fs w) p with
        | Return n' => (Return tt, mkWorld n' (now w) (trace w ++ [Mkdir p])%list)
        | Raise e => (Raise e, after (Mkdir p) w)
        end
    end.
Proof.
  unfold path_mkdir, after. unfold_monad. simpl.
  destruct (FS.is_dir (fs w) p); [reflexivity |].
  destruct (mkdir_refused (fs w) p); [reflexivity |].
  destruct (FS.mkdir (now w) (fs w) p); reflexivity.
Qed.

Lemma path_mkdir_existing p w :
  FS.is_dir (fs w) p = true -> path_mkdir p w = (Return tt, after (Mkdir p) w).
Proof.
  intros H. now rewrite path_mkdir_eq, H.
Qed.

Lemma path_mkdir_trace p w :
  trace (snd (path_mkdir p w)) = (trace w ++ [Mkdir p])%list.
Proof.
  rewrite path_mkdir_eq. destruct (FS.is_dir (fs w) p); [reflexivity |].
  destruct (mkdir_refused (fs w) p); [reflexivity |].
  destruct (FS.mkdir (now w) (fs w) p); reflexivity.
Qed.

Lemma path_mkdir_returns p w u w' :
  path_mkdir p w = (Return u, w') ->
  FS.mkdir (now w) (fs w) p = Return (fs w')
  /\ now w' = now w /\ trace w' = (trace w ++ [Mkdir p])%list.
Proof.
  rewrite path_mkdir_eq. destruct (FS.is_dir (fs w) p) eqn:Hd.
  - intros H. injection H as _ <-. rewrite (mkdir_existing _ _ _ Hd). auto.
  - destruct (mkdir_refused (fs w) p); [discriminate |].
    destruct (FS.mkdir (now w) (fs w) p); [| discriminate].
    intros H. injection H as _ <-. auto.
Qed.

Lemma path_mkdir_raises p w e w' :
  path_mkdir p w = (Raise e, w') ->
  FS.is_dir (fs w) p = false /\ w' = after (Mkdir p) w.
Proof.
  rewrite path_mkdir_eq. destruct (FS.is_dir (fs w) p); [discriminate |].
  destruct (mkdir_refused (fs w) p).
  - intros H. injection H as _ <-. auto.
  - destruct (FS.mkdir (now w) (fs w) p); [discriminate |].
    intros H. injection H as _ <-. auto.
Qed.

Lemma entry_path_eq p name size_name :
  get_thumbnail_filename p = Return name ->
  entry_path p size_name = PurePath.parent p // ".thumbnails" // size_name // name.
Proof. intros H. unfold entry_path, thumbnail_name. now rewrite H. Qed.

Lemma create_thumbnail_dirs_eq d w :
  create_thumbnail_dirs d w =
  match path_mkdir (d // ".thumbnails" // "normal") w with
  | (Return _, w1) =>
      match path_mkdir (d // ".thumbnails" // "large") w1 with
      | (Return _, w2) => (Return (standard_dirs d), w2)
      | (Raise e, w2) => (Raise e, w2)
      end
  | (Raise e, w1) => (Raise e, w1)
  end.
Proof.
  unfold create_thumbnail_dirs. simpl. unfold bind at 1 2.
  destruct (path_mkdir _ w) as [[[] | e] w1]; [| reflexivity].
  unfold ret at 1. unfold bind at 1 2.
  destruct (path_mkdir _ w1) as [[[] | e] w2]; reflexivity.
Qed.

Lemma render_returns ext src out size w :
  exists b w' logs,
    (if Str.mem ext IMAGE_EXTENSIONS
     then generate_image_thumbnail src out size
     else generate_video_thumbnail src out size) w = (Return b, w')
    /\ forallb is_log logs = true
    /\ (trace w' = (trace w ++ RenderImage src out size :: logs)%list
        \/ trace w' = (trace w ++ RenderVideo src out size :: logs)%list).
Proof.
  destruct (Str.mem ext IMAGE_EXTENSIONS).
  - destruct (generate_image_thumbnail_trace src out size w) as (l & Ht & Hl).
    rewrite generate_image_thumbnail_eq in *. cbv zeta in *.
    destruct (image_try src out size _) as [[b | e] w1];
      eexists _, _, l; (split; [reflexivity |]); auto.
  - destruct (generate_video_thumbnail_trace src out size w) as (l & Ht & Hl).
    destruct (generate_video_thumbnail_eq src out size w) as [msg Hg].
    rewrite Hg in *.
    destruct (video_try src out size _) as [[b | e] w1];
      eexists _, _, l; (split; [reflexivity |]); auto.
Qed.

(** One variant: the staleness check is recorded, then the variant is
    either kept, or rendered, or the check raised. *)
Lemma variant_step_spec p force ext dirs fn results sn sz d w :
  dict_get dirs sn = Return d ->
  let out := d // fn in
  match variant_step p force ext dirs fn results (sn, sz) w with
  | (Raise e, w') =>
      should_generate_thumbnail (fs w) p out force = Raise e
      /\ w' = after (StaleCheck p out force) w
  | (Return rs, w') =>
      exists x r,
        rs = list_append results (sn ++ ":" ++ x)
        /\ trace w' = (trace w ++ StaleCheck p out force :: r)%list
        /\ variant_outcome (fs w) p out force sz x r
        /\ (r = [] -> w' = after (StaleCheck p out force) w)
  end.
Proof.
  intros Hd out. unfold variant_step. rewrite Hd.
  unfold of_res at 1. unfold bind at 1. unfold emit at 1. unfold bind at 1.
  unfold reading at 1. unfold bind at 1. cbn [fs].
  fold out. fold (after (StaleCheck p out force) w).
  destruct (should_generate_thumbnail (fs w) p out force) as [[|] | e] eqn:Hs.
  - cbn [negb].
    destruct (render_returns ext p out sz (after (StaleCheck p out force) w))
      as (b & w' & logs & Hr & Hl & Ht).
    unfold bind at 1. rewrite Hr. unfold ret.
    exists (if b then "ok" else "failed").
    cbn [trace after] in Ht. rewrite <- !app_assoc in Ht. cbn [app] in Ht.
    destruct Ht as [Ht | Ht]; eexists; (split; [reflexivity |]);
      (split; [exact Ht |]); (split; [| discriminate]); right;
      (split; [destruct b; auto |]); (split; [exact Hs |]);
      exists logs; auto.
  - cbn [negb]. unfold ret. exists "cached", [].
    split; [reflexivity |]. split; [reflexivity |].
    split; [left; auto | reflexivity].
  - split; reflexivity.
Qed.

Lemma process_variants_eq p force ext dirs fn w :
  process_variants p force ext dirs fn w =
  match variant_step p force ext dirs fn [] ("normal", 128) w with
  | (Return r1, w1) => variant_step p force ext dirs fn r1 ("large", 256) w1
  | (Raise e, w1) => (Raise e, w1)
  end.
Proof.
  unfold process_variants, THUMBNAIL_SIZES. cbn [for_each]. unfold bind at 1.
  destruct (variant_step p force ext dirs fn [] ("normal", 128) w)
    as [[r1 | e] w1]; [| reflexivity].
  unfold bind. destruct (variant_step _ _ _ _ _ r1 _ w1) as [[r2 | e] w2];
    reflexivity.
Qed.

Lemma process_file_media p force w :
  is_media p = true ->
  process_file p force w =
  match create_thumbnail_dirs (PurePath.parent p) w with
  | (Return dirs, w1) =>
      match get_thumbnail_filename p with
      | Return name =>
          match process_variants p force (extension_of p) dirs name w1 with
          | (Return results, w2) =>
              (Return (p, status_of results, Str.join "," results), w2)
          | (Raise e, w2) => (Raise e, w2)
          end
      | Raise e => (Raise e, w1)
      end
  | (Raise e, w1) => (Raise e, w1)
  end.
Proof.
  unfold is_media, process_file. intros H.
  rewrite <- negb_orb, H. cbn [negb]. unfold bind at 1.
  destruct (create_thumbnail_dirs _ w) as [[dirs | e] w1]; [| reflexivity].
  unfold bind at 1. unfold of_res at 1.
  destruct (get_thumbnail_filename p) as [name | e]; [| reflexivity].
  unfold bind at 1. destruct (process_variants _ _ _ _ _ w1) as [[rs | e] w2];
    reflexivity.
Qed.

Lemma process_file_not_media p force w :
  is_media p = false ->
  process_file p force w = (Return (p, "skipped", "unsupported"), w).
Proof.
  unfold is_media, process_file. intros H.
  rewrite <- negb_orb, H. reflexivity.
Qed.

(** A unit of work on a media file that returns, traced: the outcome is
    built from the two variants' words, and the entries checked are the
    ones of the file in [.thumbnails/normal] and [.thumbnails/large]. *)
Lemma process_file_spec p force w o w' :
  is_media p = true ->
  process_file p force w = (Return o, w') ->
  hashable p
  /\ exists x y r1 r2 n1 n2,
       o = (p, status_of ["normal:" ++ x; "large:" ++ y],
            Str.join "," ["normal:" ++ x; "large:" ++ y])
       /\ trace w' =
          (trace w
           ++ [Mkdir (PurePath.parent p // ".thumbnails" // "normal");
               Mkdir (PurePath.parent p // ".thumbnails" // "large");
               StaleCheck p (entry_path p "normal") force]
           ++ r1 ++ [StaleCheck p (entry_path p "large") force] ++ r2)%list
       /\ variant_outcome n1 p (entry_path p "normal") force 128 x r1
       /\ variant_outcome n2 p (entry_path p "large") force 256 y r2.
Proof.
  intros Hm. rewrite (process_file_media _ _ _ Hm), create_thumbnail_dirs_eq.
  pose proof (path_mkdir_trace (PurePath.parent p // ".thumbnails" // "normal") w) as T1.
  destruct (path_mkdir _ w) as [[[] | e] w1] eqn:M1; [| discriminate].
  pose proof (path_mkdir_trace (PurePath.parent p // ".thumbnails" // "large") w1) as T2.
  destruct (path_mkdir _ w1) as [[[] | e] w2] eqn:M2; [| discriminate].
  destruct (get_thumbnail_filename p) as [name | e] eqn:Hn; [| discriminate].
  cbn [snd] in T1, T2. rewrite process_variants_eq.
  pose proof (variant_step_spec p force (extension_of p)
                (standard_dirs (PurePath.parent p)) name
                [] "normal" 128 _ w2 eq_refl) as V1.
  cbv zeta in V1.
  destruct (variant_step _ _ _ _ _ [] _ w2) as [[rs1 | e] w3]; [| discriminate].
  destruct V1 as (x & r1 & -> & T3 & O1 & _).
  pose proof (variant_step_spec p force (extension_of p)
                (standard_dirs (PurePath.parent p)) name
                (list_append [] ("normal" ++ ":" ++ x)) "large" 256 _ w3 eq_refl) as V2.
  cbv zeta in V2.
  destruct (variant_step _ _ _ _ _ _ _ w3) as [[rs2 | e] w4]; [| discriminate].
  destruct V2 as (y & r2 & -> & T4 & O2 & _).
  intros H. injection H as <- <-.
  split; [exists name; exact Hn |].
  exists x, y, r1, r2, (fs w2), (fs w3).
  rewrite !(entry_path_eq _ _ _ Hn).
  split; [reflexivity |]. split; [| split; assumption].
  rewrite T4, T3, T2, T1.
  rewrite <- !app_assoc. reflexivity.
Qed.

Lemma create_thumbnail_dirs_standard d w dirs w1 :
  create_thumbnail_dirs d w = (Return dirs, w1) -> dirs = standard_dirs d.
Proof.
  rewrite create_thumbnail_dirs_eq.
  destruct (path_mkdir _ w) as [[[] | e] w2]; [| discriminate].
  destruct (path_mkdir _ w2) as [[[] | e] w3]; [| discriminate].
  intros H. now injection H as <- _.
Qed.

(** The three places where a unit of work on a media file can raise:
    the creation of the cache directories, the computation of the
    thumbnail name and, without force, the staleness check of a variant,
    on the filesystem as it is when the check is made. *)
Lemma process_file_raises p force w e w' :
  is_media p = true ->
  process_file p force w = (Raise e, w') ->
  (exists w1, create_thumbnail_dirs (PurePath.parent p) w = (Raise e, w1))
  \/ (exists dirs w1,
         create_thumbnail_dirs (PurePath.parent p) w = (Return dirs, w1)
         /\ (get_thumbnail_filename p = Raise e
             \/ exists name,
                  get_thumbnail_filename p = Return name
                  /\ force = false
                  /\ (should_generate_thumbnail (fs w1) p (entry_path p "normal") false
                      = Raise e
                      \/ exists results w2,
                           variant_step p false (extension_of p) dirs name []
                             ("normal", 128) w1 = (Return results, w2)
                           /\ should_generate_thumbnail (fs w2) p
                                (entry_path p "large") false = Raise e))).
Proof.
  intros Hm. rewrite (process_file_media _ _ _ Hm).
  destruct (create_thumbnail_dirs _ w) as [[dirs | e1] w1] eqn:Hc.
  2:{ intros H. injection H as <- _. left. eauto. }
  intros H. right. exists dirs, w1. split; [reflexivity |].
  destruct (get_thumbnail_filename p) as [name | e1] eqn:Hn.
  2:{ injection H as <- _. left. reflexivity. }
  right. exists name. split; [reflexivity |].
  pose proof (create_thumbnail_dirs_standard _ _ _ _ Hc) as ->.
  rewrite process_variants_eq in H.
  pose proof (variant_step_spec p force (extension_of p)
                (standard_dirs (PurePath.parent p)) name
                [] "normal" 128 _ w1 eq_refl) as V1.
  cbv zeta in V1. rewrite <- (entry_path_eq _ _ "normal" Hn) in V1.
  destruct (variant_step _ _ _ _ _ [] _ w1) as [[rs1 | e1] w2] eqn:S1.
  - pose proof (variant_step_spec p force (extension_of p)
                  (standard_dirs (PurePath.parent p)) name
                  rs1 "large" 256 _ w2 eq_refl) as V2.
    cbv zeta in V2. rewrite <- (entry_path_eq _ _ "large" Hn) in V2.
    destruct (variant_step _ _ _ _ _ rs1 _ w2) as [[rs2 | e2] w3]; [discriminate |].
    injection H as <- _. destruct V2 as [V2 _].
    destruct force; [discriminate V2 |]. split; [reflexivity |].
    right. exists rs1, w2. split; [exact S1 | exact V2].
  - injection H as <- _. destruct V1 as [V1 _].
    destruct force; [discriminate V1 |]. split; [reflexivity |].
    left. exact V1.
Qed.

End ProcessFile.

(** ** The outcome of a unit of work *)

Lemma status_of_success results :
  status_of results = "success" <->
  exists r, In r results /\ Str.contains "ok" r = true.
Proof.
  unfold status_of. rewrite <- existsb_exists.
  destruct (existsb _ results); split; congruence.
Qed.

Lemma status_of_failed results :
  status_of results = "failed" <->
  forall r, In r results -> Str.contains "ok" r = false.
Proof.
  unfold status_of. destruct (existsb _ results) eqn:Hx; split; try congruence.
  - intros H. apply existsb_exists in Hx. destruct Hx as (r & Hr & Hc).
    rewrite (H r Hr) in Hc. discriminate.
  - intros _ r Hr. destruct (Str.contains "ok" r) eqn:Hc; [| reflexivity].
    assert (existsb (Str.contains "ok") results = true)
      by (apply existsb_exists; eauto).
    congruence.
Qed.

Lemma variant_word n src out force size x r :
  variant_outcome n src out force size x r ->
  x = "cached" \/ x = "ok" \/ x = "failed".
Proof. intros [(-> & _) | ([-> | ->] & _)]; auto. Qed.

(** C2. A processed media file is [success] exactly when one of its
    per-variant result strings contains "ok", and [failed] otherwise.  The
    result strings are [normal:x] and [large:y] with [x], [y] among
    [cached], [ok], [failed]; so a file is [success] exactly when a variant
    was rendered in this call, and a file whose two variants were both
    recorded [cached] is [failed]. *)
Theorem process_file_status {E : Env}
  (p fp : Path) (force : bool) (w w' : World) (status details : string) :
  is_media p = true ->
  process_file p force w = (Return (fp, status, details), w') ->
  exists results x y,
    results = ["normal:" ++ x; "large:" ++ y]
    /\ In x ["cached"; "ok"; "failed"] /\ In y ["cached"; "ok"; "failed"]
    /\ details = Str.join "," results
    /\ (status = "success" <->
        exists r, In r results /\ Str.contains "ok" r = true)
    /\ (status <> "success" -> status = "failed")
    /\ (status = "success" <-> x = "ok" \/ y = "ok")
    /\ (results = ["normal:cached"; "large:cached"] -> status = "failed").
Proof.
  intros Hm Hp.
  destruct (process_file_spec p force w _ _ Hm Hp)
    as (_ & x & y & r1 & r2 & n1 & n2 & Ho & _ & O1 & O2).
  injection Ho as -> -> ->.
  apply variant_word in O1, O2.
  exists ["normal:" ++ x; "large:" ++ y], x, y.
  split; [reflexivity |].
  split; [simpl; intuition |]. split; [simpl; intuition |].
  split; [reflexivity |]. split; [apply status_of_success |].
  split; [unfold status_of; destruct (existsb _ _); congruence |].
  split.
  - destruct O1 as [-> | [-> | ->]], O2 as [-> | [-> | ->]];
      vm_compute; split; intros H; try reflexivity; try discriminate; auto;
      destruct H; discriminate.
  - intros H. injection H as H1 H2. rewrite H1, H2. reflexivity.
Qed.

Lemma process_file_status_witness :
  exists results x y,
    results = ["normal:" ++ x; "large:" ++ y]
    /\ In x ["cached"; "ok"; "failed"] /\ In y ["cached"; "ok"; "failed"]
    /\ "normal:cached,large:cached" = Str.join "," results
    /\ ("failed" = "success" <->
        exists r, In r results /\ Str.contains "ok" r = true)
    /\ ("failed" <> "success" -> "failed" = "failed")
    /\ ("failed" = "success" <-> x = "ok" \/ y = "ok")
    /\ (results = ["normal:cached"; "large:cached"] -> "failed" = "failed").
Proof.
  eapply (process_file_status (E := Demo.env) ["p"; "photo.jpg"] ["p"; "photo.jpg"]
            false (Demo.world Demo.photos_done 200)).
  - reflexivity.
  - vm_compute. reflexivity.
Defined.

(** ** The scanner *)

Lemma node_induction (P : node -> Prop) :
  (forall m d, P (File m d)) ->
  (forall m es, Forall (fun e => P (snd e)) es -> P (Dir m es)) ->
  forall n, P n.
Proof.
  intros HF HD. fix IH 1. intros [m d | m es].
  - apply HF.
  - apply HD. induction es as [| [c ch] es IHes]; constructor.
    + apply IH.
    + exact IHes.
Qed.

Lemma walk_node_dir keep top m es :
  FS.walk_node keep top (Dir m es) =
  (top, FS.dirnames es, FS.filenames es) ::
  flat_map
    (fun e => if FS.isdir (snd e) && keep (fst e)
              then FS.walk_node keep (top // fst e) (snd e) else [])
    es.
Proof.
  cbn [FS.walk_node]. f_equal.
  induction es as [| [c ch] es IH]; [reflexivity |].
  cbn [flat_map fst snd]. now rewrite IH.
Qed.

Lemma descends_dir_inv n ds m es :
  descends n ds (Dir m es) -> FS.isdir n = true.
Proof.
  intros H. inversion H; subst; reflexivity.
Qed.

(** What [os.walk] yields: the directories reached from the top through
    kept directory names only, each with its own listing. *)
Lemma walk_node_In keep n : forall top r dirs files,
  In (r, dirs, files) (FS.walk_node keep top n) <->
  exists ds m es,
    descends n ds (Dir m es) /\ forallb keep ds = true
    /\ r = (top ++ ds)%list
    /\ dirs = FS.dirnames es /\ files = FS.filenames es.
Proof.
  induction n as [m d | m es IH] using node_induction; intros top r dirs files.
  - split; [intros [] |].
    intros (ds & m' & es' & Hd & _). inversion Hd.
  - rewrite walk_node_dir. cbn [In]. rewrite in_flat_map. split.
    + intros [Heq | ((c & ch) & Hin & Hw)].
      * injection Heq as <- <- <-. exists [], m, es.
        rewrite app_nil_r. repeat split. constructor.
      * cbn [fst snd] in Hw.
        destruct (FS.isdir ch && keep c) eqn:Hk; [| destruct Hw].
        apply andb_prop in Hk. destruct Hk as [_ Hk].
        rewrite Forall_forall in IH.
        apply (IH (c, ch) Hin) in Hw.
        destruct Hw as (ds & m' & es' & Hd & Hf & -> & -> & ->).
        exists (c :: ds), m', es'. repeat split.
        -- econstructor; eassumption.
        -- cbn [forallb]. now rewrite Hk, Hf.
        -- unfold PurePath.div. now rewrite <- app_assoc.
    + intros (ds & m' & es' & Hd & Hf & -> & -> & ->).
      inversion Hd as [| m0 es0 c ch ds' n' Hin Hd']; subst.
      * left. now rewrite app_nil_r.
      * right. exists (c, ch). split; [assumption |]. cbn [fst snd].
        cbn [forallb] in Hf. apply andb_prop in Hf. destruct Hf as [Hk Hf].
        rewrite (descends_dir_inv _ _ _ _ Hd'), Hk. cbn [andb].
        rewrite Forall_forall in IH. apply (IH (c, ch) Hin).
        exists ds', m', es'. repeat split; try assumption.
        unfold PurePath.div. now rewrite <- app_assoc.
Qed.

Lemma filenames_In name es :
  In name (FS.filenames es) <-> exists fm fd, In (name, File fm fd) es.
Proof.
  unfold FS.filenames. rewrite in_map_iff. split.
  - intros ((c & ch) & <- & Hin). apply filter_In in Hin.
    destruct Hin as [Hin Hf]. destruct ch as [fm fd | ]; [| discriminate].
    exists fm, fd. exact Hin.
  - intros (fm & fd & Hin). exists (name, File fm fd). split; [reflexivity |].
    apply filter_In. split; [assumption | reflexivity].
Qed.

Lemma forallb_not_excluded excluded ds :
  forallb (fun d => negb (Str.mem d excluded)) ds = true <->
  Forall (fun d => ~ In d excluded) ds.
Proof.
  rewrite forallb_forall, Forall_forall. split; intros H d Hd.
  - apply mem_not_In. specialize (H d Hd). now destruct (Str.mem d excluded).
  - specialize (H d Hd). apply mem_not_In in H. now rewrite H.
Qed.

Section Scanner.

Context {E : Env}.

Lemma find_media_files_In n root_dir exclude_dirs p :
  In p (find_media_files n root_dir exclude_dirs) <->
  exists r dirs files file,
    In (r, dirs, files)
      (FS.walk (fun d => negb (Str.mem d (excluded_names exclude_dirs))) n root_dir)
    /\ In file files /\ p = r // file /\ is_media p = true.
Proof.
  unfold find_media_files. rewrite in_flat_map. split.
  - intros (((r & dirs) & files) & Hw & Hp). apply filter_In in Hp.
    destruct Hp as [Hp Hm]. apply in_map_iff in Hp. destruct Hp as (file & <- & Hf).
    exists r, dirs, files, file. repeat split; assumption.
  - intros (r & dirs & files & file & Hw & Hf & -> & Hm).
    exists (r, dirs, files). split; [destruct exclude_dirs; exact Hw |].
    apply filter_In. split; [| exact Hm]. apply in_map_iff. eauto.
Qed.

Lemma find_media_files_media n root_dir exclude_dirs p :
  In p (find_media_files n root_dir exclude_dirs) -> is_media p = true.
Proof.
  intros H. apply find_media_files_In in H.
  destruct H as (? & ? & ? & ? & _ & _ & _ & H). exact H.
Qed.

End Scanner.

Lemma is_media_In p :
  is_media p = true <->
  In (Str.lower (PurePath.suffix p)) IMAGE_EXTENSIONS
  \/ In (Str.lower (PurePath.suffix p)) VIDEO_EXTENSIONS.
Proof.
  unfold is_media, extension_of. rewrite orb_true_iff, !mem_In. reflexivity.
Qed.

Lemma find_media_files_no_dir n root_dir exclude_dirs :
  FS.is_dir n root_dir = false -> find_media_files n root_dir exclude_dirs = [].
Proof.
  unfold FS.is_dir, find_media_files, FS.walk.
  destruct (FS.lookup n root_dir) as [[m d | m es] | e];
    try reflexivity; discriminate.
Qed.

Lemma walk_In n root_dir m es keep r dirs files :
  FS.lookup n root_dir = Return (Dir m es) ->
  In (r, dirs, files) (FS.walk keep n root_dir) <->
  exists ds m' es',
    descends (Dir m es) ds (Dir m' es') /\ forallb keep ds = true
    /\ r = (root_dir ++ ds)%list
    /\ dirs = FS.dirnames es' /\ files = FS.filenames es'.
Proof.
  intros Hl. unfold FS.walk. rewrite Hl. apply walk_node_In.
Qed.

(** C6, as the code has it.  On a root directory, the scanner yields
    exactly the files (entries that are not directories) found below the
    root whose lower-cased suffix is in the image or video table and whose
    path from the root passes through no directory named in the excluded
    set, the default set being .thumbnails, @eaDir, .DS_Store and
    Thumbs.db.  The names tested are those of the directories between the
    root and the file: the name of the root and the names of its ancestors
    are not.  The walk itself visits no directory below an excluded one, so
    a file below one is not yielded whatever its name. *)
Theorem find_media_files_spec
  (n : node) (root_dir : Path) (exclude_dirs : option (list string))
  (m : Z) (es : list (string * node)) :
  FS.lookup n root_dir = Return (Dir m es) ->
  let excluded :=
    match exclude_dirs with
    | None => [".thumbnails"; "@eaDir"; ".DS_Store"; "Thumbs.db"]
    | Some s => s
    end in
  (forall p,
      In p (find_media_files n root_dir exclude_dirs) <->
      exists ds name m' es' fm fd,
        p = (root_dir ++ ds ++ [name])%list
        /\ descends (Dir m es) ds (Dir m' es')
        /\ In (name, File fm fd) es'
        /\ (In (Str.lower (PurePath.suffix p)) IMAGE_EXTENSIONS
            \/ In (Str.lower (PurePath.suffix p)) VIDEO_EXTENSIONS)
        /\ Forall (fun d => ~ In d excluded) ds)
  /\ (forall r dirs files,
         In (r, dirs, files)
           (FS.walk (fun d => negb (Str.mem d excluded)) n root_dir) ->
         exists ds,
           r = (root_dir ++ ds)%list /\ Forall (fun d => ~ In d excluded) ds)
  /\ (forall ds d name,
         In d ds -> In d excluded ->
         ~ In (root_dir ++ ds ++ [name])%list
             (find_media_files n root_dir exclude_dirs)).
Proof.
  intros Hl excluded.
  assert (Hx : excluded = excluded_names exclude_dirs) by reflexivity.
  assert (Hspec : forall p,
      In p (find_media_files n root_dir exclude_dirs) <->
      exists ds name m' es' fm fd,
        p = (root_dir ++ ds ++ [name])%list
        /\ descends (Dir m es) ds (Dir m' es')
        /\ In (name, File fm fd) es'
        /\ (In (Str.lower (PurePath.suffix p)) IMAGE_EXTENSIONS
            \/ In (Str.lower (PurePath.suffix p)) VIDEO_EXTENSIONS)
        /\ Forall (fun d => ~ In d excluded) ds).
  { intros p. rewrite find_media_files_In, Hx. split.
    - intros (r & dirs & files & file & Hw & Hf & -> & Hm).
      apply (walk_In _ _ _ _ _ _ _ _ Hl) in Hw.
      destruct Hw as (ds & m' & es' & Hd & Hk & -> & -> & ->).
      apply filenames_In in Hf. destruct Hf as (fm & fd & Hf).
      exists ds, file, m', es', fm, fd. repeat split.
      + unfold PurePath.div. now rewrite <- app_assoc.
      + exact Hd.
      + exact Hf.
      + now apply is_media_In.
      + now apply forallb_not_excluded.
    - intros (ds & name & m' & es' & fm & fd & -> & Hd & Hf & Hm & Hk).
      exists (root_dir ++ ds)%list, (FS.dirnames es'), (FS.filenames es'), name.
      repeat split.
      + apply (walk_In _ _ _ _ _ _ _ _ Hl). exists ds, m', es'.
        repeat split; try assumption. now apply forallb_not_excluded.
      + apply filenames_In. eauto.
      + unfold PurePath.div. now rewrite <- app_assoc.
      + now apply is_media_In. }
  split; [exact Hspec |]. split.
  - intros r dirs files Hw. apply (walk_In _ _ _ _ _ _ _ _ Hl) in Hw.
    destruct Hw as (ds & m' & es' & Hd & Hk & -> & _).
    exists ds. split; [reflexivity |]. now apply forallb_not_excluded.
  - intros ds d name Hd Hex Hin. apply Hspec in Hin.
    destruct Hin as (ds' & name' & _ & _ & _ & _ & Heq & _ & _ & _ & Hk).
    apply app_inv_head in Heq. apply app_inj_tail in Heq. destruct Heq as [<- _].
    rewrite Forall_forall in Hk. exact (Hk d Hd Hex).
Qed.

Lemma find_media_files_spec_witness :
  FS.lookup Demo.root ["srv"; "media"] = Return Demo.media
  /\ In ["srv"; "media"; "2023"; "IMG_1.JPEG"]
       (find_media_files Demo.root ["srv"; "media"] None)
  /\ ~ In ["srv"; "media"; "@eaDir"; "photo.jpg"; "SYNOPHOTO_THUMB_M.jpg"]
         (find_media_files Demo.root ["srv"; "media"] None).
Proof.
  split; [reflexivity |].
  destruct (find_media_files_spec Demo.root ["srv"; "media"] None 0
              [ ("photo.jpg", File 10 "jpeg");
                ("clip.mp4", File 10 "mp4");
                ("notes.txt", File 10 "text");
                ("2023", Dir 0 [ ("IMG_1.JPEG", File 20 "jpeg") ]);
                ("@eaDir",
                 Dir 0 [ ("photo.jpg",
                          Dir 0 [ ("SYNOPHOTO_THUMB_M.jpg", File 5 "jpeg") ]) ]) ]
              eq_refl) as (Hspec & _ & Hpruned).
  split.
  - apply Hspec.
    exists ["2023"], "IMG_1.JPEG", 0, [ ("IMG_1.JPEG", File 20 "jpeg") ], 20, "jpeg".
    split; [reflexivity |]. split.
    + eapply descends_down; [| apply descends_here]. simpl. tauto.
    + split; [simpl; tauto |]. split; [left; simpl; tauto |].
      repeat constructor. simpl. intros [H | [H | [H | [H | []]]]]; discriminate.
  - apply (Hpruned ["@eaDir"; "photo.jpg"] "@eaDir" "SYNOPHOTO_THUMB_M.jpg");
      simpl; tauto.
Defined.

(** C6 as stated fails: scanned from [/p/.thumbnails], the thumbnail of
    [/p/photo.jpg] is yielded, although it lies beneath a directory named
    [.thumbnails], a name of the default excluded set. *)
Lemma scan_from_excluded_directory :
  In ".thumbnails" default_exclude_dirs
  /\ In ".thumbnails"
       (PurePath.parent (entry_path (E := Demo.env) ["p"; "photo.jpg"] "normal"))
  /\ FS.is_dir Demo.photos_done ["p"; ".thumbnails"] = true
  /\ In (entry_path (E := Demo.env) ["p"; "photo.jpg"] "normal")
       (find_media_files Demo.photos_done ["p"; ".thumbnails"] None).
Proof. vm_compute. repeat split; tauto. Qed.

(** The extension test follows [str.lower]: an extension written with the
    Kelvin sign for its [K] is the one of a video. *)
Example kelvin_sign_extension :
  extension_of ["v"; Demo.kelvin_name] = ".mkv"
  /\ is_media ["v"; Demo.kelvin_name] = true
  /\ In ["v"; Demo.kelvin_name]
       (find_media_files
          (Dir 0 [ ("v", Dir 0 [ (Demo.kelvin_name, File 10 "mkv") ]) ]) ["v"] None).
Proof. vm_compute. repeat split; tauto. Qed.

(** ** The scanner and the unit of work agree on what a media file is *)

(** C10, as the code has it.  A file the scanner yields passes the
    extension test of [process_file], so the unit of work never returns
    [skipped]: when it returns, the outcome is for that file and its status
    is [success] or [failed].  It does not always return: it raises when
    the creation of the cache directories raises, when the thumbnail name
    cannot be computed or when, without force, the staleness check of a
    variant raises on the filesystem it is made on, and in no other
    case. *)
Theorem scanned_file_never_skipped {E : Env}
  (n : node) (root_dir : Path) (exclude_dirs : option (list string))
  (p : Path) (force : bool) (w : World) :
  In p (find_media_files n root_dir exclude_dirs) ->
  match process_file p force w with
  | (Return (fp, status, details), _) =>
      fp = p /\ (status = "success" \/ status = "failed") /\ status <> "skipped"
  | (Raise e, _) =>
      (exists w1, create_thumbnail_dirs (PurePath.parent p) w = (Raise e, w1))
      \/ (exists dirs w1,
             create_thumbnail_dirs (PurePath.parent p) w = (Return dirs, w1)
             /\ (get_thumbnail_filename p = Raise e
                 \/ exists name,
                      get_thumbnail_filename p = Return name
                      /\ force = false
                      /\ (should_generate_thumbnail (fs w1) p
                            (entry_path p "normal") false = Raise e
                          \/ exists results w2,
                               variant_step p false (extension_of p) dirs name []
                                 ("normal", 128) w1 = (Return results, w2)
                               /\ should_generate_thumbnail (fs w2) p
                                    (entry_path p "large") false = Raise e)))
  end.
Proof.
  intros Hin. apply find_media_files_media in Hin.
  destruct (process_file p force w) as [[[[fp status] details] | e] w'] eqn:Hp.
  - destruct (process_file_spec p force w _ _ Hin Hp)
      as (_ & x & y & _ & _ & _ & _ & Ho & _).
    injection Ho as -> -> _. split; [reflexivity |].
    unfold status_of. destruct (existsb _ _); split; auto; discriminate.
  - eapply process_file_raises; eassumption.
Qed.

Lemma scanned_file_never_skipped_witness :
  In ["srv"; "media"; "clip.mp4"]
    (find_media_files Demo.root ["srv"; "media"] None)
  /\ exists status details w',
       process_file (E := Demo.env) ["srv"; "media"; "clip.mp4"] false
         (Demo.world Demo.root 100)
       = (Return (["srv"; "media"; "clip.mp4"], status, details), w')
       /\ (status = "success" \/ status = "failed").
Proof.
  assert (H : In ["srv"; "media"; "clip.mp4"]
                (find_media_files Demo.root ["srv"; "media"] None))
    by (vm_compute; tauto).
  split; [exact H |].
  pose proof (scanned_file_never_skipped (E := Demo.env) Demo.root ["srv"; "media"]
                None ["srv"; "media"; "clip.mp4"] false (Demo.world Demo.root 100) H)
    as Hs.
  destruct (process_file (E := Demo.env) ["srv"; "media"; "clip.mp4"] false
              (Demo.world Demo.root 100))
    as [[[[fp status] details] | e] w'] eqn:Hp.
  - destruct Hs as (-> & Hst & _). exists status, details, w'.
    split; [reflexivity | exact Hst].
  - exfalso. revert Hp. vm_compute. discriminate.
Defined.

(** C10 as stated fails: the scanner yields [/data/pics/a.jpg], where a
    regular file named [.thumbnails] is in the way of the cache directory,
    and [/q/caf\xe9.jpg], whose name is not valid UTF-8; the unit of work
    of either returns no outcome at all, neither [success] nor [failed]:
    it raises. *)
Lemma scanned_file_without_outcome :
  In ["data"; "pics"; "a.jpg"] (find_media_files Demo.blocked ["data"] None)
  /\ fst (process_file (E := Demo.env) ["data"; "pics"; "a.jpg"] false
            (Demo.world Demo.blocked 100))
     = Raise NotADirectoryError
  /\ In ["q"; Demo.latin1_name] (find_media_files Demo.cafe ["q"] None)
  /\ fst (process_file (E := Demo.env) ["q"; Demo.latin1_name] false
            (Demo.world Demo.cafe 100))
     = Raise UnicodeEncodeError.
Proof. vm_compute. repeat split; tauto. Qed.

(** ** The thumbnail file name *)

Lemma le_bytes_range k : forall x, Forall (fun b => 0 <= b < 256) (MD5.le_bytes k x).
Proof.
  induction k as [| k IH]; intros x; simpl; constructor.
  - apply Z.mod_pos_bound. lia.
  - apply IH.
Qed.

Lemma le_bytes_length k x : List.length (MD5.le_bytes k x) = k.
Proof. revert x. induction k as [| k IH]; intros x; simpl; [| rewrite IH]; reflexivity. Qed.

Lemma digest_length msg : List.length (MD5.digest msg) = 16%nat.
Proof.
  unfold MD5.digest. destruct (MD5.blocks _ _ _) as [a b c d].
  rewrite !length_app, !le_bytes_length. reflexivity.
Qed.

Lemma digest_range msg : Forall (fun b => 0 <= b < 256) (MD5.digest msg).
Proof.
  unfold MD5.digest. destruct (MD5.blocks _ _ _) as [a b c d].
  repeat (apply Forall_app; split); apply le_bytes_range.
Qed.

Lemma hex_digit_lower k : 0 <= k < 16 -> is_lower_hex (MD5.hex_digit k) = true.
Proof.
  intros H.
  assert (Hk : In k (map Z.of_nat (seq 0 16))).
  { replace k with (Z.of_nat (Z.to_nat k)) by lia.
    apply in_map, in_seq. lia. }
  simpl in Hk.
  repeat (destruct Hk as [<- | Hk]; [reflexivity |]). destruct Hk.
Qed.

Lemma hex_length bs : String.length (MD5.hex bs) = (2 * List.length bs)%nat.
Proof. induction bs as [| b bs IH]; simpl; [| rewrite IH]; lia. Qed.

Lemma hex_lower bs :
  Forall (fun b => 0 <= b < 256) bs ->
  forallb is_lower_hex (list_ascii_of_string (MD5.hex bs)) = true.
Proof.
  induction 1 as [| b bs Hb _ IH]; [reflexivity |].
  cbn [MD5.hex list_ascii_of_string forallb].
  rewrite IH, !hex_digit_lower; [reflexivity | |].
  - apply Z.mod_pos_bound. lia.
  - split; [apply Z.div_pos; lia | apply Z.div_lt_upper_bound; lia].
Qed.

Lemma hexdigest_shape msg :
  String.length (MD5.hexdigest msg) = 32%nat
  /\ forallb is_lower_hex (list_ascii_of_string (MD5.hexdigest msg)) = true.
Proof.
  unfold MD5.hexdigest. rewrite hex_length, digest_length.
  split; [reflexivity | apply hex_lower, digest_range].
Qed.

Lemma get_thumbnail_filename_eq {E : Env} (p : Path) :
  get_thumbnail_filename p =
  match resolve p with
  | Raise e => Raise e
  | Return rp =>
      if Str.valid_utf8 (Str.bytes ("file://" ++ PurePath.str rp))
      then Return (MD5.hexdigest (Str.bytes ("file://" ++ PurePath.str rp)) ++ ".png")
      else Raise UnicodeEncodeError
  end.
Proof.
  unfold get_thumbnail_filename, get_file_uri, encode_utf8.
  destruct (resolve p) as [rp | e]; [| reflexivity].
  destruct (Str.valid_utf8 _); reflexivity.
Qed.

(** C4, as the code has it.  For a path that [resolve] resolves and whose
    URI, [file://] followed by the resolved absolute path, is valid UTF-8,
    the thumbnail file name is the MD5 digest of the bytes of that URI in
    32 lower-case hexadecimal digits, then [.png]; for any other path the
    function raises (what [resolve] raised, or [UnicodeEncodeError]) and
    there is no file name.  The result is a function of the resolved path
    alone, so two references that resolve to the same path get the same
    name.  A unit of work that returns has used that one name for both
    variants: the entries it checks and renders are
    [.thumbnails/normal/<name>] and [.thumbnails/large/<name>] beside the
    file. *)
Theorem thumbnail_filename_spec {E : Env} (p q : Path) :
  (forall rp,
      resolve p = Return rp ->
      Str.valid_utf8 (Str.bytes ("file://" ++ PurePath.str rp)) = true ->
      get_thumbnail_filename p
      = Return (MD5.hexdigest (Str.bytes ("file://" ++ PurePath.str rp)) ++ ".png"))
  /\ (forall name,
         get_thumbnail_filename p = Return name ->
         exists rp h,
           resolve p = Return rp
           /\ Str.valid_utf8 (Str.bytes ("file://" ++ PurePath.str rp)) = true
           /\ h = MD5.hexdigest (Str.bytes ("file://" ++ PurePath.str rp))
           /\ name = h ++ ".png"
           /\ String.length h = 32%nat
           /\ forallb is_lower_hex (list_ascii_of_string h) = true)
  /\ (forall rp,
         resolve p = Return rp ->
         Str.valid_utf8 (Str.bytes ("file://" ++ PurePath.str rp)) = false ->
         get_thumbnail_filename p = Raise UnicodeEncodeError)
  /\ (forall e, resolve p = Raise e -> get_thumbnail_filename p = Raise e)
  /\ (resolve p = resolve q ->
      get_thumbnail_filename p = get_thumbnail_filename q)
  /\ (forall force w o w',
         is_media p = true ->
         process_file p force w = (Return o, w') ->
         exists name,
           get_thumbnail_filename p = Return name
           /\ let normal := PurePath.parent p // ".thumbnails" // "normal" // name in
              let large := PurePath.parent p // ".thumbnails" // "large" // name in
              exists r1 r2,
                trace w' =
                (trace w
                 ++ [Mkdir (PurePath.parent p // ".thumbnails" // "normal");
                     Mkdir (PurePath.parent p // ".thumbnails" // "large");
                     StaleCheck p normal force]
                 ++ r1 ++ [StaleCheck p large force] ++ r2)%list
                /\ (forall e, In e r1 ->
                      is_log e = true \/ e = RenderImage p normal 128
                      \/ e = RenderVideo p normal 128)
                /\ (forall e, In e r2 ->
                      is_log e = true \/ e = RenderImage p large 256
                      \/ e = RenderVideo p large 256)).
Proof.
  split; [| split; [| split; [| split; [| split]]]].
  - intros rp Hr Hv. now rewrite get_thumbnail_filename_eq, Hr, Hv.
  - intros name. rewrite get_thumbnail_filename_eq.
    destruct (resolve p) as [rp | e]; [| discriminate].
    destruct (Str.valid_utf8 _) eqn:Hv; [| discriminate].
    intros H. injection H as <-. exists rp. eexists.
    split; [reflexivity |]. split; [exact Hv |]. split; [reflexivity |].
    split; [reflexivity |]. apply hexdigest_shape.
  - intros rp Hr Hv. now rewrite get_thumbnail_filename_eq, Hr, Hv.
  - intros e Hr. now rewrite get_thumbnail_filename_eq, Hr.
  - intros H. rewrite !get_thumbnail_filename_eq. now rewrite H.
  - intros force w o w' Hm Hp.
    destruct (process_file_spec p force w _ _ Hm Hp)
      as ([name Hn] & x & y & r1 & r2 & n1 & n2 & _ & Ht & O1 & O2).
    exists name. split; [exact Hn |]. cbv zeta.
    rewrite !(entry_path_eq _ _ _ Hn) in *.
    exists r1, r2. split; [exact Ht |].
    assert (Hev : forall n out size x r,
               variant_outcome n p out force size x r ->
               forall e, In e r ->
                 is_log e = true \/ e = RenderImage p out size
                 \/ e = RenderVideo p out size).
    { intros n out size z r [(_ & -> & _) | (_ & _ & logs & Hl & Hr)] e He.
      - destruct He.
      - rewrite forallb_forall in Hl.
        destruct Hr as [-> | ->]; destruct He as [<- | He]; auto. }
    split; eapply Hev; eassumption.
Qed.

Lemma thumbnail_filename_spec_witness :
  get_thumbnail_filename (E := Demo.env) ["srv"; "media"; "photo.jpg"]
  = Return "d5b59137c1c7a3e14fafe4bdee2fc465.png"
  /\ get_thumbnail_filename (E := Demo.env) ["a"; "b"; "c.jpg"]
     = Return "6f4da7581a5a0f9b2b38166d3d9cc7a0.png".
Proof.
  destruct (thumbnail_filename_spec (E := Demo.env)
              ["srv"; "media"; "photo.jpg"] ["srv"; "media"; "photo.jpg"])
    as (H1 & _).
  destruct (thumbnail_filename_spec (E := Demo.env)
              ["a"; "b"; "c.jpg"] ["a"; "b"; "c.jpg"])
    as (H2 & _).
  split.
  - rewrite (H1 ["srv"; "media"; "photo.jpg"] eq_refl eq_refl).
    vm_compute. reflexivity.
  - rewrite (H2 ["a"; "b"; "c.jpg"] eq_refl eq_refl).
    vm_compute. reflexivity.
Defined.

(** C4 as stated fails: not every path has a thumbnail file name.  The
    photo [/q/caf\xe9.jpg], named in Latin-1, is found by the scanner; its
    URI cannot be encoded, so [get_thumbnail_filename] raises
    [UnicodeEncodeError] instead of returning a name, and so does the unit
    of work, once the cache directories have been created. *)
Lemma thumbnail_filename_undefined :
  In ["q"; Demo.latin1_name] (find_media_files Demo.cafe ["q"] None)
  /\ resolve (Env := Demo.env) ["q"; Demo.latin1_name]
     = Return ["q"; Demo.latin1_name]
  /\ get_thumbnail_filename (E := Demo.env) ["q"; Demo.latin1_name]
     = Raise UnicodeEncodeError
  /\ fst (process_file (E := Demo.env) ["q"; Demo.latin1_name] false
            (Demo.world Demo.cafe 100))
     = Raise UnicodeEncodeError
  /\ FS.is_dir
       (fs (snd (process_file (E := Demo.env) ["q"; Demo.latin1_name] false
                   (Demo.world Demo.cafe 100))))
       ["q"; ".thumbnails"; "large"]
     = true.
Proof. vm_compute. repeat split; tauto. Qed.

(** ** The run *)

Section Run.

Context {E : Env}.



Lemma is_dir_exists n p : FS.is_dir n p = true -> FS.exists_ n p = true.
Proof.
  unfold FS.is_dir, FS.exists_. destruct (FS.lookup n p); [reflexivity | discriminate].
Qed.



Lemma main_run args w :
  FS.is_dir (fs w) (directory args) = true ->
  dry_run args = false ->
  main args w =
  let media_files := find_media_files (fs w) (directory args) None in
  if workers args <=? 0 then (Raise ValueError, scanned args w)
  else
    match submit_all media_files (force args) (scanned args w) with
    | (Return futures, w1) =>
        match collect futures w1 with
        | (Return c, w2) =>
            (Return (if failed c =? 0 then 0 else 1),
             mkWorld (fs w2) (now w2)
               (trace w2 ++ summary_events c (len media_files))%list)
        | (Raise e, w2) => (Raise e, w2)
        end
    | (Raise e, w1) => (Raise e, w1)
    end.
Proof.
  intros Hd Hdry. unfold main. unfold bind at 1. unfold reading at 1.
  rewrite (is_dir_exists _ _ Hd). cbn [negb].
  unfold bind at 1. unfold reading at 1. rewrite Hd. cbn [negb].
  unfold logger. unfold bind at 1. unfold emit at 1.
  unfold bind at 1. unfold emit at 1.
  unfold bind at 1. unfold reading at 1. cbn [fs now trace].
  unfold bind at 1. unfold emit at 1. cbn [fs now trace].
  rewrite Hdry. rewrite <- !app_assoc. cbn [app].
  fold (scan_events (fs w) (directory args)). fold (scanned args w).
  cbv zeta. unfold bind at 1. unfold ThreadPoolExecutor.
  destruct (workers args <=? 0); [reflexivity |]. unfold ret at 1.
  unfold bind at 1.
  destruct (submit_all _ _ _) as [[futures | e] w1]; [| reflexivity].
  unfold bind at 1. destruct (collect futures w1) as [[c | e] w2]; [| reflexivity].
  unfold_monad. cbn. rewrite <- !app_assoc. reflexivity.
Qed.


Lemma submit_all_cons p l force w :
  submit_all (p :: l) force w =
  let '(r, w1) := process_file p force w in
  match submit_all l force w1 with
  | (Return futures, w2) => (Return (r :: futures), w2)
  | (Raise e, w2) => (Raise e, w2)
  end.
Proof.
  cbn [submit_all]. unfold bind at 1. unfold future.
  destruct (process_file p force w) as [r w1].
  unfold bind at 1. destruct (submit_all l force w1) as [[futures | e] w2];
    reflexivity.
Qed.

Lemma count_status_cons s fut futures :
  count_status s (fut :: futures) =
  (match fut with
   | Return (_, status, _) => if String.eqb status s then 1 else 0
   | Raise _ => 0
   end) + count_status s futures.
Proof.
  unfold count_status. cbn [filter].
  destruct fut as [[[fp status] details] | e]; [| lia].
  destruct (String.eqb status s); cbn [List.length]; lia.
Qed.

(** One step of the result loop: an outcome is counted and logged, an
    exception held by the future is raised again. *)
Lemma tally_spec c fut w :
  match tally c fut w with
  | (Return c', w') =>
      returned fut
      /\ successful c' = successful c + count_status "success" [fut]
      /\ failed c' = failed c + count_status "failed" [fut]
      /\ fs w' = fs w /\ now w' = now w
      /\ exists l, trace w' = (trace w ++ l)%list /\ forallb is_log l = true
  | (Raise e, w') => fut = Raise e /\ w' = w
  end.
Proof.
  unfold tally. destruct fut as [[[fp status] details] | e].
  - unfold of_res, bind at 1. rewrite !count_status_cons.
    unfold count_status. cbn [filter List.length Z.of_nat].
    destruct (String.eqb status "success") eqn:Hs.
    + apply String.eqb_eq in Hs. subst status. unfold_monad. cbn.
      repeat split; try lia; eauto. unfold returned; eauto.
    + destruct (String.eqb status "failed") eqn:Hf.
      * unfold_monad. cbn. repeat split; try lia; eauto. unfold returned; eauto.
      * destruct (Str.contains "cached" details); unfold_monad; cbn;
          repeat split; try lia; eauto; try (unfold returned; eauto).
        exists []. now rewrite app_nil_r.
  - split; reflexivity.
Qed.

Lemma for_each_tally futures : forall c w,
  match for_each futures tally c w with
  | (Return c', w') =>
      Forall returned futures
      /\ successful c' = successful c + count_status "success" futures
      /\ failed c' = failed c + count_status "failed" futures
      /\ fs w' = fs w /\ now w' = now w
      /\ exists l, trace w' = (trace w ++ l)%list /\ forallb is_log l = true
  | (Raise e, w') =>
      In (Raise e) futures
      /\ fs w' = fs w /\ now w' = now w
      /\ exists l, trace w' = (trace w ++ l)%list /\ forallb is_log l = true
  end.
Proof.
  induction futures as [| fut futures IH]; intros c w.
  - cbn. repeat split; try (unfold count_status; cbn; lia); auto.
    exists []. now rewrite app_nil_r.
  - cbn [for_each]. unfold bind at 1. pose proof (tally_spec c fut w) as Ht.
    destruct (tally c fut w) as [[c1 | e] w1].
    + destruct Ht as (Hr & Hs & Hf & Hfs & Hnow & l1 & Hl1 & Hlog1).
      specialize (IH c1 w1).
      destruct (for_each futures tally c1 w1) as [[c2 | e] w2].
      * destruct IH as (Hall & Hs2 & Hf2 & Hfs2 & Hnow2 & l2 & Hl2 & Hlog2).
        rewrite (count_status_cons "success"), (count_status_cons "failed").
        rewrite count_status_cons in Hs, Hf.
        unfold count_status in Hs, Hf at 1. cbn in Hs, Hf.
        repeat split; try congruence; try lia.
        -- constructor; assumption.
        -- exists (l1 ++ l2)%list. rewrite Hl2, Hl1, app_assoc, forallb_app, Hlog1, Hlog2.
           split; reflexivity.
      * destruct IH as (Hin & Hfs2 & Hnow2 & l2 & Hl2 & Hlog2).
        repeat split; try congruence; [right; assumption |].
        exists (l1 ++ l2)%list. rewrite Hl2, Hl1, app_assoc, forallb_app, Hlog1, Hlog2.
        split; reflexivity.
    + destruct Ht as [-> ->]. repeat split; auto; [left; reflexivity |].
      exists []. now rewrite app_nil_r.
Qed.

Lemma collect_returns futures w :
  Forall returned futures ->
  exists c w',
    collect futures w = (Return c, w')
    /\ failed c = count_status "failed" futures
    /\ successful c = count_status "success" futures
    /\ fs w' = fs w
    /\ exists l, trace w' = (trace w ++ l)%list /\ forallb is_log l = true.
Proof.
  intros Hall. unfold collect.
  pose proof (for_each_tally futures (mkCounts 0 0 0) w) as H.
  destruct (for_each futures tally _ w) as [[c | e] w'].
  - destruct H as (_ & Hs & Hf & Hfs & _ & Hl). exists c, w'.
    cbn in Hs, Hf. repeat split; auto.
  - destruct H as (Hin & _). rewrite Forall_forall in Hall.
    destruct (Hall _ Hin) as [o Ho]. discriminate.
Qed.

Lemma collect_raises futures w :
  ~ Forall returned futures ->
  exists e w',
    collect futures w = (Raise e, w') /\ In (Raise e) futures /\ fs w' = fs w.
Proof.
  intros Hnot. unfold collect.
  pose proof (for_each_tally futures (mkCounts 0 0 0) w) as H.
  destruct (for_each futures tally _ w) as [[c | e] w'].
  - destruct H as (Hall & _). contradiction.
  - destruct H as (Hin & Hfs & _). exists e, w'. auto.
Qed.

Lemma report_events_scan n d : forallb is_report (scan_events n d) = true.
Proof. reflexivity. Qed.


End Run.






(** ** Filesystem errors in a unit of work *)

Section Errors.

Context {E : Env}.

Lemma process_file_mkdir_raises p force w e w1 :
  is_media p = true ->
  create_thumbnail_dirs (PurePath.parent p) w = (Raise e, w1) ->
  process_file p force w = (Raise e, w1).
Proof.
  intros Hm Hc. now rewrite (process_file_media _ _ _ Hm), Hc.
Qed.

Lemma process_file_stale_raises p force w dirs w1 name e :
  is_media p = true ->
  create_thumbnail_dirs (PurePath.parent p) w = (Return dirs, w1) ->
  get_thumbnail_filename p = Return name ->
  should_generate_thumbnail (fs w1) p (entry_path p "normal") force = Raise e ->
  process_file p force w
  = (Raise e, after (StaleCheck p (entry_path p "normal") force) w1).
Proof.
  intros Hm Hc Hn Hs. rewrite (process_file_media _ _ _ Hm), Hc, Hn.
  rewrite (create_thumbnail_dirs_standard _ _ _ _ Hc), process_variants_eq.
  pose proof (variant_step_spec p force (extension_of p)
                (standard_dirs (PurePath.parent p)) name
                [] "normal" 128 _ w1 eq_refl) as V.
  cbv zeta in V. rewrite <- (entry_path_eq _ _ "normal" Hn) in V.
  destruct (variant_step _ _ _ _ _ [] _ w1) as [[rs | e'] w2].
  - destruct V as (x & r & _ & _ & [(_ & _ & O) | (_ & O & _)] & _);
      rewrite Hs in O; discriminate.
  - destruct V as [V ->]. rewrite Hs in V. now injection V as <-.
Qed.

Lemma process_file_stale_large_raises p force w dirs w1 name results w2 e :
  is_media p = true ->
  create_thumbnail_dirs (PurePath.parent p) w = (Return dirs, w1) ->
  get_thumbnail_filename p = Return name ->
  variant_step p force (extension_of p) dirs name [] ("normal", 128) w1
  = (Return results, w2) ->
  should_generate_thumbnail (fs w2) p (entry_path p "large") force = Raise e ->
  process_file p force w
  = (Raise e, after (StaleCheck p (entry_path p "large") force) w2).
Proof.
  intros Hm Hc Hn Hv Hs. rewrite (process_file_media _ _ _ Hm), Hc, Hn.
  rewrite process_variants_eq, Hv.
  rewrite (create_thumbnail_dirs_standard _ _ _ _ Hc).
  pose proof (variant_step_spec p force (extension_of p)
                (standard_dirs (PurePath.parent p)) name
                results "large" 256 _ w2 eq_refl) as V.
  cbv zeta in V. rewrite <- (entry_path_eq _ _ "large" Hn) in V.
  destruct (variant_step _ _ _ _ _ results _ w2) as [[rs | e'] w3].
  - destruct V as (x & r & _ & _ & [(_ & _ & O) | (_ & O & _)] & _);
      rewrite Hs in O; discriminate.
  - destruct V as [V ->]. rewrite Hs in V. now injection V as <-.
Qed.

(** Submitting runs the unit of every file, whatever the units before it
    did. *)
Lemma submit_all_units_run l force : forall w,
  exists futures w1,
    submit_all l force w = (Return futures, w1)
    /\ units_run force l w futures w1.
Proof.
  induction l as [| p l IH]; intros w.
  - exists [], w. split; [reflexivity | constructor].
  - rewrite submit_all_cons.
    destruct (process_file p force w) as [r w1] eqn:Hp.
    destruct (IH w1) as (futures & w2 & -> & Hu).
    exists (r :: futures), w2. split; [reflexivity |].
    econstructor; eassumption.
Qed.

Lemma returned_dec {A} (futures : list (res A)) :
  Forall returned futures \/ ~ Forall returned futures.
Proof.
  induction futures as [| [o | e] futures [IH | IH]].
  - left. constructor.
  - left. constructor; [eexists; reflexivity | assumption].
  - right. intros H. inversion H. contradiction.
  - right. intros H. inversion H as [| ? ? [o Ho] _]. discriminate.
  - right. intros H. inversion H as [| ? ? [o Ho] _]. discriminate.
Qed.

(** A run whose pool has a worker: [main] returns when every unit
    returned, and raises again what a unit raised when one did. *)
Lemma main_after_units args w futures w1 :
  FS.is_dir (fs w) (directory args) = true ->
  dry_run args = false ->
  0 < workers args ->
  submit_all (find_media_files (fs w) (directory args) None) (force args)
    (scanned args w) = (Return futures, w1) ->
  fs (snd (main args w)) = fs w1
  /\ (Forall returned futures ->
      fst (main args w)
      = Return (if count_status "failed" futures =? 0 then 0 else 1))
  /\ ((exists e0, In (Raise e0) futures) ->
      exists e, In (Raise e) futures /\ fst (main args w) = Raise e).
Proof.
  intros Hd Hdry Hw Hs.
  rewrite (main_run _ _ Hd Hdry). cbv zeta.
  destruct (workers args <=? 0) eqn:Hle; [lia |]. rewrite Hs.
  destruct (returned_dec futures) as [Hall | Hnot].
  - destruct (collect_returns futures w1 Hall) as (c & w2 & Hc & Hf & _ & Hfs & _).
    rewrite Hc. cbn [fst snd fs]. split; [exact Hfs |].
    split; [intros _; now rewrite Hf |].
    intros (e0 & He0). rewrite Forall_forall in Hall.
    destruct (Hall _ He0) as [o Ho]. discriminate.
  - destruct (collect_raises futures w1 Hnot) as (e & w2 & Hc & Hin & Hfs).
    rewrite Hc. cbn [fst snd]. split; [exact Hfs |].
    split; [intros Hall; contradiction |]. intros _. exists e.
    split; [exact Hin | reflexivity].
Qed.

End Errors.

(** C8, as the code has it.  A [mkdir] failure while the cache directories
    are created, or a [stat] failure in the staleness check of either
    variant, is not turned into an outcome record: [process_file] raises
    it.  In a run over a directory, without dry-run and with at least one
    worker, the unit of work of every scanned file is run all the same,
    each on what the units before it left, and the filesystem after the run
    is the one after the last unit; then [main] returns an exit code when
    every unit returned an outcome, and raises again an exception that a
    unit raised as soon as one did. *)
Theorem fs_error_aborts_run {E : Env} :
  (forall p force w e w1,
      is_media p = true ->
      create_thumbnail_dirs (PurePath.parent p) w = (Raise e, w1) ->
      process_file p force w = (Raise e, w1))
  /\ (forall p force w dirs w1 name e,
         is_media p = true ->
         create_thumbnail_dirs (PurePath.parent p) w = (Return dirs, w1) ->
         get_thumbnail_filename p = Return name ->
         (should_generate_thumbnail (fs w1) p (entry_path p "normal") force = Raise e ->
          process_file p force w
          = (Raise e, after (StaleCheck p (entry_path p "normal") force) w1))
         /\ (forall results w2,
               variant_step p force (extension_of p) dirs name [] ("normal", 128) w1
               = (Return results, w2) ->
               should_generate_thumbnail (fs w2) p (entry_path p "large") force
               = Raise e ->
               process_file p force w
               = (Raise e, after (StaleCheck p (entry_path p "large") force) w2)))
  /\ (forall args w,
         FS.is_dir (fs w) (directory args) = true ->
         dry_run args = false ->
         0 < workers args ->
         exists futures w1,
           units_run (force args) (find_media_files (fs w) (directory args) None)
             (scanned args w) futures w1
           /\ fs (snd (main args w)) = fs w1
           /\ (Forall returned futures -> exists c, fst (main args w) = Return c)
           /\ ((exists e0, In (Raise e0) futures) ->
               exists e, In (Raise e) futures /\ fst (main args w) = Raise e)).
Proof.
  split; [exact process_file_mkdir_raises |]. split.
  - intros p force w dirs w1 name e Hm Hc Hn. split.
    + intros Hs. exact (process_file_stale_raises _ _ _ _ _ _ _ Hm Hc Hn Hs).
    + intros results w2 Hv Hs.
      exact (process_file_stale_large_raises _ _ _ _ _ _ _ _ _ Hm Hc Hn Hv Hs).
  - intros args w Hd Hdry Hw.
    destruct (submit_all_units_run
                (find_media_files (fs w) (directory args) None) (force args)
                (scanned args w)) as (futures & w1 & Hs & Hu).
    exists futures, w1. split; [exact Hu |].
    destruct (main_after_units args w futures w1 Hd Hdry Hw Hs) as (Hfs & Hr & He).
    split; [exact Hfs |]. split; [| exact He].
    intros Hall. eexists. exact (Hr Hall).
Qed.

Lemma fs_error_aborts_run_witness :
  exists futures w1,
    units_run (E := Demo.env) false
      [["data"; "pics"; "a.jpg"]; ["data"; "good"; "b.jpg"]]
      (scanned (Demo.args ["data"]) (Demo.world Demo.blocked 100)) futures w1
    /\ fs (snd (main (E := Demo.env) (Demo.args ["data"])
                  (Demo.world Demo.blocked 100))) = fs w1
    /\ exists e,
         In (Raise e) futures
         /\ fst (main (E := Demo.env) (Demo.args ["data"])
                   (Demo.world Demo.blocked 100)) = Raise e.
Proof.
  destruct (fs_error_aborts_run (E := Demo.env)) as (_ & _ & H).
  destruct (H (Demo.args ["data"]) (Demo.world Demo.blocked 100)
              eq_refl eq_refl eq_refl) as (futures & w1 & Hu & Hfs & _ & Hr).
  exists futures, w1. split; [exact Hu |]. split; [exact Hfs |].
  apply Hr. exists NotADirectoryError.
  inversion Hu as [| p files w0 r w2 futs w3 Hp Hu']; subst.
  left. revert Hp. vm_compute. intros Hp. now injection Hp as <- _.
Defined.

(** C8 as stated fails: in [/data/pics] a regular file named [.thumbnails]
    makes [mkdir] fail for [a.jpg]; the unit of work raises, and so does
    [main], although the unit of [/data/good/b.jpg] ran and wrote its
    thumbnails. *)
Lemma fs_error_escapes :
  fst (process_file (E := Demo.env) ["data"; "pics"; "a.jpg"] false
         (Demo.world Demo.blocked 100))
  = Raise NotADirectoryError
  /\ fst (main (E := Demo.env) (Demo.args ["data"]) (Demo.world Demo.blocked 100))
     = Raise NotADirectoryError
  /\ FS.exists_
       (fs (snd (main (E := Demo.env) (Demo.args ["data"])
                   (Demo.world Demo.blocked 100))))
       (entry_path (E := Demo.env) ["data"; "good"; "b.jpg"] "normal")
     = true.
Proof. vm_compute. repeat split. Qed.

(** The same on a filesystem mounted read-only: the refusal of [mkdir] is
    a [PermissionError], which the unit of work and [main] raise. *)
Example permission_error_escapes :
  fst (process_file (E := Demo.read_only) ["p"; "photo.jpg"] false
         (Demo.world (Demo.photos 10) 100))
  = Raise PermissionError
  /\ fst (main (E := Demo.read_only) (Demo.args ["p"])
            (Demo.world (Demo.photos 10) 100))
     = Raise PermissionError.
Proof. vm_compute. repeat split. Qed.

(** ** A run over a cache that is fresh *)

Section FreshRun.

Context {E : Env}.

Lemma entry_parent_is_dir n p size_name m :
  FS.stat_mtime n (entry_path p size_name) = Return m ->
  FS.is_dir n (PurePath.parent p // ".thumbnails" // size_name) = true.
Proof. unfold entry_path. apply stat_parent_is_dir. Qed.

Lemma variant_step_fresh p dirs name results size_name size d w :
  dict_get dirs size_name = Return d ->
  fresh (fs w) p (d // name) ->
  variant_step p false (extension_of p) dirs name results (size_name, size) w
  = (Return (list_append results (size_name ++ ":cached")),
     after (StaleCheck p (d // name) false) w).
Proof.
  intros Hd Hf.
  pose proof (variant_step_spec p false (extension_of p) dirs
                name results size_name size d w Hd) as V.
  cbv zeta in V. apply should_generate_fresh in Hf.
  destruct (variant_step _ _ _ _ _ _ _ w) as [[rs | e] w'].
  - destruct V as (x & r & -> & _ & [(-> & -> & _) | (_ & O & _)] & Hw).
    + now rewrite (Hw eq_refl).
    + rewrite Hf in O. discriminate.
  - destruct V as [V _]. rewrite Hf in V. discriminate.
Qed.

(** A unit of work on a file whose two entries are fresh: both variants
    are recorded [cached], nothing is rendered and the filesystem is not
    touched. *)
Lemma process_file_fresh p w :
  is_media p = true ->
  hashable p ->
  fresh (fs w) p (entry_path p "normal") ->
  fresh (fs w) p (entry_path p "large") ->
  process_file p false w
  = (Return (p, "failed", "normal:cached,large:cached"),
     mkWorld (fs w) (now w) (trace w ++ fresh_events p)%list).
Proof.
  intros Hm [name Hname] Hn Hl.
  assert (Dn : FS.is_dir (fs w) (PurePath.parent p // ".thumbnails" // "normal") = true).
  { destruct Hn as (ms & mt & _ & He & _). eapply entry_parent_is_dir, He. }
  assert (Dl : FS.is_dir (fs w) (PurePath.parent p // ".thumbnails" // "large") = true).
  { destruct Hl as (ms & mt & _ & He & _). eapply entry_parent_is_dir, He. }
  unfold fresh_events. rewrite !(entry_path_eq _ _ _ Hname) in *.
  rewrite (process_file_media _ _ _ Hm), create_thumbnail_dirs_eq.
  rewrite (path_mkdir_existing _ _ Dn).
  rewrite path_mkdir_existing by exact Dl.
  rewrite Hname, process_variants_eq.
  erewrite variant_step_fresh; [| reflexivity | exact Hn].
  erewrite variant_step_fresh; [| reflexivity | exact Hl].
  unfold after. cbn [fs now trace].
  rewrite <- !app_assoc. reflexivity.
Qed.

(** The same whether or not the thumbnail name can be computed: the unit
    leaves the filesystem as it is and calls no renderer. *)
Lemma process_file_fresh_quiet p w :
  is_media p = true ->
  fresh (fs w) p (entry_path p "normal") ->
  fresh (fs w) p (entry_path p "large") ->
  exists r l,
    process_file p false w = (r, mkWorld (fs w) (now w) (trace w ++ l)%list)
    /\ existsb is_render l = false.
Proof.
  intros Hm Hn Hl.
  destruct (get_thumbnail_filename p) as [name | e] eqn:Hname.
  - rewrite (process_file_fresh p w Hm (ex_intro _ name Hname) Hn Hl).
    eexists _, _. split; reflexivity.
  - assert (Dn : FS.is_dir (fs w) (PurePath.parent p // ".thumbnails" // "normal") = true).
    { destruct Hn as (ms & mt & _ & He & _). eapply entry_parent_is_dir, He. }
    assert (Dl : FS.is_dir (fs w) (PurePath.parent p // ".thumbnails" // "large") = true).
    { destruct Hl as (ms & mt & _ & He & _). eapply entry_parent_is_dir, He. }
    rewrite (process_file_media _ _ _ Hm), create_thumbnail_dirs_eq.
    rewrite (path_mkdir_existing _ _ Dn).
    rewrite path_mkdir_existing by exact Dl.
    rewrite Hname. unfold after. cbn [fs now trace].
    eexists _, _. rewrite <- app_assoc. split; reflexivity.
Qed.

Lemma submit_all_fresh l : forall w,
  (forall p, In p l ->
     is_media p = true
     /\ hashable p
     /\ fresh (fs w) p (entry_path p "normal")
     /\ fresh (fs w) p (entry_path p "large")) ->
  submit_all l false w
  = (Return (map (fun p => Return (p, "failed", "normal:cached,large:cached")) l),
     mkWorld (fs w) (now w) (trace w ++ flat_map fresh_events l)%list).
Proof.
  induction l as [| p l IH]; intros w H.
  - cbn. unfold ret. rewrite app_nil_r. now destruct w.
  - destruct (H p (or_introl eq_refl)) as (Hm & Hh & Hn & Hl).
    rewrite submit_all_cons, (process_file_fresh _ _ Hm Hh Hn Hl).
    rewrite IH by (intros q Hq; apply H; now right).
    cbn [fs now trace map flat_map]. rewrite <- app_assoc. reflexivity.
Qed.

Lemma submit_all_fresh_quiet l : forall w,
  (forall p, In p l ->
     is_media p = true
     /\ fresh (fs w) p (entry_path p "normal")
     /\ fresh (fs w) p (entry_path p "large")) ->
  exists futures evs,
    submit_all l false w
    = (Return futures, mkWorld (fs w) (now w) (trace w ++ evs)%list)
    /\ existsb is_render evs = false.
Proof.
  induction l as [| p l IH]; intros w H.
  - exists [], []. cbn. unfold ret. rewrite app_nil_r. split; [now destruct w | reflexivity].
  - destruct (H p (or_introl eq_refl)) as (Hm & Hn & Hl).
    destruct (process_file_fresh_quiet p w Hm Hn Hl) as (r & l1 & Hp & Hr1).
    rewrite submit_all_cons, Hp.
    destruct (IH (mkWorld (fs w) (now w) (trace w ++ l1)%list))
      as (futures & l2 & Hs & Hr2).
    { intros q Hq. apply H. now right. }
    rewrite Hs. cbn [fs now trace].
    exists (r :: futures), (l1 ++ l2)%list. rewrite <- app_assoc.
    split; [reflexivity |]. rewrite existsb_app, Hr1, Hr2. reflexivity.
Qed.

Lemma no_render_in_logs l : forallb is_log l = true -> existsb is_render l = false.
Proof.
  induction l as [| e l IH]; [reflexivity |]. cbn. intros H.
  apply andb_prop in H. destruct H as [He Hl]. rewrite (IH Hl).
  destruct e; try discriminate; reflexivity.
Qed.

Lemma no_render_in_fresh_events l : existsb is_render (flat_map fresh_events l) = false.
Proof. induction l as [| p l IH]; [reflexivity | exact IH]. Qed.

Lemma returned_outcomes {A} (f : A -> Path * string * string) l :
  Forall returned (map (fun a => Return (f a)) l).
Proof.
  induction l as [| a l IH]; constructor; [eexists; reflexivity | exact IH].
Qed.

(** The result loop writes log lines only, whether it ends or raises. *)
Lemma collect_quiet futures w :
  fs (snd (collect futures w)) = fs w
  /\ exists l,
       trace (snd (collect futures w)) = (trace w ++ l)%list
       /\ forallb is_log l = true.
Proof.
  unfold collect.
  pose proof (for_each_tally futures (mkCounts 0 0 0) w) as H.
  destruct (for_each futures tally _ w) as [[c | e] w'].
  - destruct H as (_ & _ & _ & Hfs & _ & Hl). auto.
  - destruct H as (_ & Hfs & _ & Hl). auto.
Qed.

(** A run over a fresh cache leaves the filesystem as it is and calls no
    renderer. *)
Lemma main_fresh_quiet args w :
  FS.is_dir (fs w) (directory args) = true ->
  dry_run args = false ->
  force args = false ->
  (forall p, In p (find_media_files (fs w) (directory args) None) ->
     fresh (fs w) p (entry_path p "normal")
     /\ fresh (fs w) p (entry_path p "large")) ->
  fs (snd (main args w)) = fs w
  /\ exists l,
       trace (snd (main args w)) = (trace w ++ l)%list
       /\ existsb is_render l = false.
Proof.
  intros Hd Hdry Hforce Hfresh.
  rewrite (main_run _ _ Hd Hdry). cbv zeta.
  destruct (workers args <=? 0) eqn:Hle.
  { cbn [snd fs trace scanned]. split; [reflexivity |].
    eexists. split; reflexivity. }
  rewrite Hforce.
  destruct (submit_all_fresh_quiet
              (find_media_files (fs w) (directory args) None) (scanned args w))
    as (futures & evs & Hs & Hr).
  { intros p Hp.
    split; [apply (find_media_files_media (fs w) (directory args) None); exact Hp |].
    exact (Hfresh p Hp). }
  rewrite Hs.
  match goal with
  | |- context [collect futures ?w1] =>
      destruct (collect_quiet futures w1) as (Hfs & logs & Ht & Hlogs);
      destruct (collect futures w1) as [[c | e] w2]
  end; cbn [fst snd fs trace scanned] in *.
  - split; [exact Hfs |]. eexists. rewrite Ht, <- !app_assoc.
    split; [reflexivity |].
    rewrite existsb_app, existsb_app, existsb_app, Hr, (no_render_in_logs _ Hlogs).
    reflexivity.
  - split; [exact Hfs |]. eexists. rewrite Ht, <- !app_assoc.
    split; [reflexivity |].
    rewrite existsb_app, existsb_app, Hr, (no_render_in_logs _ Hlogs).
    reflexivity.
Qed.

End FreshRun.

(** C3, as the code has it.  In a run without force and dry-run, over a
    directory whose scanned files all have, for both variants, a cache
    entry at least as new as the file: every staleness check returns
    false, no renderer is called, and the filesystem, with every cache
    entry's content and modification time, is after the run what it was
    before.  When moreover the thumbnail name of every scanned file can be
    computed, the run makes nothing but the two directory calls and the two
    staleness checks of each file, and ends with an exit code.  (An entry
    that is missing, as after a failed render, or older than its file is
    rendered again.) *)
Theorem fresh_run_rewrites_nothing {E : Env} (args : Args) (w : World) :
  FS.is_dir (fs w) (directory args) = true ->
  dry_run args = false ->
  force args = false ->
  0 < workers args ->
  let media_files := find_media_files (fs w) (directory args) None in
  (forall p, In p media_files ->
     fresh (fs w) p (entry_path p "normal")
     /\ fresh (fs w) p (entry_path p "large")) ->
  (forall p, In p media_files ->
     should_generate_thumbnail (fs w) p (entry_path p "normal") false = Return false
     /\ should_generate_thumbnail (fs w) p (entry_path p "large") false = Return false)
  /\ fs (snd (main args w)) = fs w
  /\ (exists l,
         trace (snd (main args w)) = (trace w ++ l)%list
         /\ existsb is_render l = false)
  /\ ((forall p, In p media_files -> hashable p) ->
      (exists logs,
          trace (snd (main args w))
          = (trace w ++ scan_events (fs w) (directory args)
             ++ flat_map fresh_events media_files ++ logs)%list
          /\ forallb is_log logs = true)
      /\ exists code, fst (main args w) = Return code).
Proof.
  intros Hd Hdry Hforce Hw media_files Hfresh.
  split.
  { intros p Hp. destruct (Hfresh p Hp) as [Hn Hl].
    split; now apply should_generate_fresh. }
  destruct (main_fresh_quiet args w Hd Hdry Hforce Hfresh) as [Hfs Hquiet].
  split; [exact Hfs |]. split; [exact Hquiet |].
  intros Hhash.
  rewrite (main_run _ _ Hd Hdry). cbv zeta. fold media_files.
  destruct (workers args <=? 0) eqn:Hle; [lia |].
  rewrite Hforce, submit_all_fresh.
  2:{ intros p Hp.
      split; [apply (find_media_files_media (fs w) (directory args) None); exact Hp |].
      split; [exact (Hhash p Hp) | exact (Hfresh p Hp)]. }
  match goal with
  | |- context [collect ?f ?w1] =>
      destruct (collect_returns f w1 (returned_outcomes _ _))
        as (c & w2 & Hc & _ & _ & _ & logs & Ht & Hlogs)
  end.
  rewrite Hc. cbn [fst snd fs trace scanned] in *.
  split; [| eexists; reflexivity].
  exists (logs ++ summary_events c (len media_files))%list. split.
  - rewrite Ht, <- !app_assoc. reflexivity.
  - rewrite forallb_app, Hlogs. reflexivity.
Qed.

Lemma fresh_run_rewrites_nothing_witness :
  fs (snd (main (E := Demo.env) (Demo.args ["p"]) (Demo.world Demo.photos_done 200)))
  = Demo.photos_done
  /\ (exists l,
         trace (snd (main (E := Demo.env) (Demo.args ["p"])
                       (Demo.world Demo.photos_done 200)))
         = ([] ++ l)%list
         /\ existsb is_render l = false)
  /\ exists code,
       fst (main (E := Demo.env) (Demo.args ["p"]) (Demo.world Demo.photos_done 200))
       = Return code.
Proof.
  destruct (fresh_run_rewrites_nothing (E := Demo.env) (Demo.args ["p"])
              (Demo.world Demo.photos_done 200) eq_refl eq_refl eq_refl eq_refl)
    as (_ & Hfs & Hr & Hc).
  - intros p Hp. vm_compute in Hp. destruct Hp as [<- | []].
    split; exists 10, 100;
      (split; [vm_compute; reflexivity |]);
      (split; [vm_compute; reflexivity | lia]).
  - split; [exact Hfs |]. split; [exact Hr |].
    apply Hc. intros p Hp. vm_compute in Hp. destruct Hp as [<- | []].
    eexists. vm_compute. reflexivity.
Defined.

(** C3 as stated fails.  A photo dated 1000 is processed at time 100: both
    thumbnails are written, dated 100.  Nothing changes until the second
    run, at time 200, without force: the entry is older than the photo, the
    staleness check returns true, the renderer is called and the entries
    are written again. *)
Lemma second_run_rewrites_entry :
  fs (snd (main (E := Demo.env) (Demo.args ["p"])
             (Demo.world (Demo.photos 1000) 100)))
  = Demo.future_done
  /\ should_generate_thumbnail Demo.future_done ["p"; "photo.jpg"]
       (entry_path (E := Demo.env) ["p"; "photo.jpg"] "normal") false
     = Return true
  /\ existsb is_render
       (trace (snd (main (E := Demo.env) (Demo.args ["p"])
                      (Demo.world Demo.future_done 200))))
     = true
  /\ FS.stat_mtime Demo.future_done
       (entry_path (E := Demo.env) ["p"; "photo.jpg"] "normal")
     = Return 100
  /\ FS.stat_mtime
       (fs (snd (main (E := Demo.env) (Demo.args ["p"])
                   (Demo.world Demo.future_done 200))))
       (entry_path (E := Demo.env) ["p"; "photo.jpg"] "normal")
     = Return 200.
Proof. vm_compute. repeat split. Qed.

(** The same with a render that failed: without [ffmpeg] the first run
    leaves no entry for the clip, so the second run finds it stale and
    calls the renderer again. *)
Example second_run_retries_failed_render :
  fs (snd (main (E := Demo.env) (Demo.args ["v"]) (Demo.world Demo.clips 100)))
  = Demo.clips_done
  /\ should_generate_thumbnail Demo.clips_done ["v"; "clip.mp4"]
       (entry_path (E := Demo.env) ["v"; "clip.mp4"] "normal") false
     = Return true
  /\ existsb is_render
       (trace (snd (main (E := Demo.env) (Demo.args ["v"])
                      (Demo.world Demo.clips_done 200))))
     = true.
Proof. vm_compute. repeat split. Qed.

(** A second run over a fresh cache exits with 1 as soon as there is a
    file: every outcome is [failed]. *)
Example fresh_second_run_exit_code :
  fst (main (E := Demo.env) (Demo.args ["p"]) (Demo.world Demo.photos_done 200))
  = Return 1.
Proof. vm_compute. reflexivity. Qed.

(** * Further properties *)

(** ** The renderers' results and diagnostics *)

(** X1. [generate_image_thumbnail] returns [True] without a log line, or
    [False] with exactly one error line that names the file and the
    exception; the clock is left alone, and when the image cannot be opened
    nothing is written to the filesystem. *)
Theorem image_renderer_diagnostic {E : Env}
  (src out : Path) (size : Z) (w : World) :
  exists b w' l,
    generate_image_thumbnail src out size w = (Return b, w')
    /\ trace w' = (trace w ++ RenderImage src out size :: l)%list
    /\ now w' = now w
    /\ ((b = true /\ l = [])
        \/ (b = false
            /\ exists e,
                 l = [Log ERROR ("Error generating image thumbnail for "
                                 ++ PurePath.str src ++ ": " ++ exn_str e)]))
    /\ (forall e, Image_open (fs w) src = Raise e -> b = false /\ fs w' = fs w).
Proof.
  rewrite generate_image_thumbnail_eq. cbv zeta.
  destruct (image_try_quiet src out size (after (RenderImage src out size) w))
    as [Ht Hn].
  destruct (image_try src out size _) as [[b | e] w1] eqn:Hb; cbn [snd] in Ht, Hn.
  - exists b, w1, []. split; [reflexivity |]. split; [exact Ht |].
    split; [exact Hn |]. split.
    + left. split; [eapply image_try_returns_true; eassumption | reflexivity].
    + intros e He. unfold image_try in Hb. unfold_monad. cbn in Hb.
      rewrite He in Hb. discriminate.
  - exists false. eexists.
    exists [Log ERROR ("Error generating image thumbnail for "
                       ++ PurePath.str src ++ ": " ++ exn_str e)].
    split; [reflexivity |]. cbn [trace now after].
    split; [rewrite Ht; cbn [trace after]; now rewrite <- app_assoc |].
    split; [exact Hn |].
    split; [right; split; [reflexivity | exists e; reflexivity] |].
    intros e' He. split; [reflexivity |].
    unfold image_try in Hb. unfold_monad. cbn in Hb. rewrite He in Hb.
    injection Hb as _ <-. reflexivity.
Qed.

(** X2. [generate_video_thumbnail] runs the one [ffmpeg] command with a
    time-out of 30.  When the process ends, the result is [True] exactly
    for return code 0, and a non-zero code gives [False] without any log
    line; when [subprocess.run] raises, the result is [False] with one
    error line, the one of the missing tool when it is
    [FileNotFoundError]. *)
Theorem video_renderer_result {E : Env}
  (src out : Path) (size : Z) (w : World) :
  match subprocess_run (ffmpeg_cmd src out size) 30 (now w) (fs w) with
  | (Return code, n') =>
      generate_video_thumbnail src out size w
      = (Return (code =? 0),
         mkWorld n' (now w) (trace w ++ [RenderVideo src out size])%list)
  | (Raise e, n') =>
      exists msg,
        generate_video_thumbnail src out size w
        = (Return false,
           mkWorld n' (now w)
             (trace w ++ [RenderVideo src out size; Log ERROR msg])%list)
        /\ (e = FileNotFoundError ->
            msg = "ffmpeg not found. Please install ffmpeg to generate video thumbnails.")
        /\ (e = TimeoutExpired ->
            msg = "Timeout generating video thumbnail for " ++ PurePath.str src)
  end.
Proof.
  unfold generate_video_thumbnail, video_try. fold (ffmpeg_cmd src out size).
  unfold_monad. cbn [fs now trace].
  destruct (subprocess_run (ffmpeg_cmd src out size) 30 (now w) (fs w))
    as [[code | e] n'].
  - reflexivity.
  - destruct e; unfold_monad; cbn [fs now trace]; eexists; rewrite <- app_assoc;
      (split; [reflexivity |]); split; intros H; try discriminate H; reflexivity.
Qed.

(** ** Forced regeneration *)

Section Forced.

Context {E : Env}.

Lemma render_returns_event ext src out size w :
  exists b w' logs,
    (if Str.mem ext IMAGE_EXTENSIONS
     then generate_image_thumbnail src out size
     else generate_video_thumbnail src out size) w = (Return b, w')
    /\ forallb is_log logs = true
    /\ trace w' = (trace w ++ render_event ext src out size :: logs)%list.
Proof.
  unfold render_event. destruct (Str.mem ext IMAGE_EXTENSIONS).
  - destruct (generate_image_thumbnail_trace src out size w) as (l & Ht & Hl).
    rewrite generate_image_thumbnail_eq in *. cbv zeta in *.
    destruct (image_try src out size _) as [[b | e] w1];
      eexists _, _, l; (split; [reflexivity |]); auto.
  - destruct (generate_video_thumbnail_trace src out size w) as (l & Ht & Hl).
    destruct (generate_video_thumbnail_eq src out size w) as [msg Hg].
    rewrite Hg in *.
    destruct (video_try src out size _) as [[b | e] w1];
      eexists _, _, l; (split; [reflexivity |]); auto.
Qed.

Lemma variant_step_forced p ext dirs fn results sn sz d w :
  dict_get dirs sn = Return d ->
  exists b w' logs,
    render_call ext p (d // fn) sz (after (StaleCheck p (d // fn) true) w)
    = (Return b, w')
    /\ variant_step p true ext dirs fn results (sn, sz) w
       = (Return (list_append results (sn ++ ":" ++ render_word b)), w')
    /\ forallb is_log logs = true
    /\ trace w'
       = (trace w ++ StaleCheck p (d // fn) true
            :: render_event ext p (d // fn) sz :: logs)%list.
Proof.
  intros Hd. unfold variant_step. rewrite Hd.
  unfold of_res at 1. unfold bind at 1. unfold emit at 1. unfold bind at 1.
  unfold reading at 1. unfold bind at 1. cbn [fs should_generate_thumbnail negb].
  destruct (render_returns_event ext p (d // fn) sz
              (after (StaleCheck p (d // fn) true) w))
    as (b & w' & logs & Hr & Hl & Ht).
  exists b, w', logs. split; [exact Hr |].
  unfold after in Hr. unfold bind at 1. rewrite Hr. unfold ret.
  split; [reflexivity |]. split; [exact Hl |].
  rewrite Ht. cbn [trace after]. now rewrite <- app_assoc.
Qed.

End Forced.

(** X3. With the force flag, a unit of work on a media file whose cache
    directories are created and whose thumbnail name can be computed
    returns an outcome without consulting modification times: after the
    staleness check of each variant it calls the renderer of the file's
    kind, at 128 for [normal] and then at 256 for [large], records [ok]
    for a render that returned true and [failed] for one that returned
    false, never [cached], and is [success] exactly when one of the two
    renders returned true. *)
Theorem forced_process_file {E : Env}
  (p : Path) (w w1 : World) (dirs : list (string * Path)) (name : string) :
  is_media p = true ->
  create_thumbnail_dirs (PurePath.parent p) w = (Return dirs, w1) ->
  get_thumbnail_filename p = Return name ->
  let normal := PurePath.parent p // ".thumbnails" // "normal" // name in
  let large := PurePath.parent p // ".thumbnails" // "large" // name in
  exists b1 b2 w2 w3,
    render_call (extension_of p) p normal 128 (after (StaleCheck p normal true) w1)
    = (Return b1, w2)
    /\ render_call (extension_of p) p large 256 (after (StaleCheck p large true) w2)
       = (Return b2, w3)
    /\ process_file p true w
       = (Return (p, (if b1 || b2 then "success" else "failed"),
                  "normal:" ++ render_word b1 ++ ",large:" ++ render_word b2), w3)
    /\ exists logs1 logs2,
         trace w3
         = (trace w1
            ++ [StaleCheck p normal true;
                render_event (extension_of p) p normal 128]
            ++ logs1
            ++ [StaleCheck p large true;
                render_event (extension_of p) p large 256]
            ++ logs2)%list
         /\ forallb is_log logs1 = true /\ forallb is_log logs2 = true.
Proof.
  intros Hm Hc Hn normal large.
  rewrite (process_file_media _ _ _ Hm), Hc, Hn.
  rewrite (create_thumbnail_dirs_standard _ _ _ _ Hc), process_variants_eq.
  destruct (variant_step_forced p (extension_of p)
              (standard_dirs (PurePath.parent p)) name
              [] "normal" 128 _ w1 eq_refl)
    as (b1 & w2 & logs1 & Hr1 & -> & Hl1 & Ht1).
  destruct (variant_step_forced p (extension_of p)
              (standard_dirs (PurePath.parent p)) name
              (list_append [] ("normal" ++ ":" ++ render_word b1)) "large" 256 _ w2
              eq_refl)
    as (b2 & w3 & logs2 & Hr2 & -> & Hl2 & Ht2).
  exists b1, b2, w2, w3.
  split; [exact Hr1 |]. split; [exact Hr2 |].
  split; [destruct b1, b2; reflexivity |].
  exists logs1, logs2. split; [| split; assumption].
  rewrite Ht2, Ht1. unfold normal, large. rewrite <- !app_assoc. reflexivity.
Qed.

Lemma forced_process_file_witness :
  exists b1 b2 w',
    process_file (E := Demo.env) ["p"; "photo.jpg"] true
      (Demo.world Demo.photos_done 200)
    = (Return (["p"; "photo.jpg"], (if b1 || b2 then "success" else "failed"),
               "normal:" ++ render_word b1 ++ ",large:" ++ render_word b2), w').
Proof.
  edestruct (forced_process_file (E := Demo.env) ["p"; "photo.jpg"]
               (Demo.world Demo.photos_done 200))
    as (b1 & b2 & w2 & w3 & _ & _ & H & _).
  - reflexivity.
  - vm_compute. reflexivity.
  - vm_compute. reflexivity.
  - exists b1, b2, w3. exact H.
Defined.

(** ** The futures and the counters *)

Section Futures.

Context {E : Env}.

Lemma process_file_unit_result p force w :
  unit_result p (fst (process_file p force w)).
Proof.
  destruct (is_media p) eqn:Hm.
  - destruct (process_file p force w) as [[[[fp status] details] | e] w'] eqn:Hp;
      cbn [fst unit_result]; [| exact Hm].
    destruct (process_file_spec p force w _ _ Hm Hp)
      as (_ & x & y & _ & _ & _ & _ & Ho & _).
    injection Ho as -> -> _. split; [reflexivity |]. left.
    split; [exact Hm |]. unfold status_of. destruct (existsb _ _); auto.
  - rewrite (process_file_not_media _ _ _ Hm). cbn. auto.
Qed.

Lemma tally_counts c fut w c' w' p :
  unit_result p fut ->
  is_media p = true ->
  tally c fut w = (Return c', w') ->
  cached c' = cached c
  /\ successful c' + failed c' = successful c + failed c + 1.
Proof.
  intros Hu Hm. destruct fut as [[[fp status] details] | e].
  - destruct Hu as (_ & [(_ & [-> | ->]) | (Hn & _)]); [| | congruence];
      unfold tally; unfold_monad; cbn; intros H; injection H as <- _; cbn; lia.
  - discriminate.
Qed.

Lemma for_each_tally_counts l : forall futures c w c' w',
  Forall2 unit_result l futures ->
  (forall p, In p l -> is_media p = true) ->
  for_each futures tally c w = (Return c', w') ->
  cached c' = cached c
  /\ successful c' + failed c' = successful c + failed c + Z.of_nat (List.length l).
Proof.
  induction l as [| p l IH]; intros futures c w c' w' HF Hm Hr.
  - inversion HF; subst. cbn in Hr. unfold ret in Hr. injection Hr as <- _.
    cbn. lia.
  - inversion HF as [| p0 fut l0 futs Hu HF']; subst.
    cbn [for_each] in Hr. unfold bind at 1 in Hr.
    destruct (tally c fut w) as [[c1 | e] w1] eqn:Ht; [| discriminate].
    destruct (tally_counts _ _ _ _ _ _ Hu (Hm p (or_introl eq_refl)) Ht) as [H1 H2].
    destruct (IH futs c1 w1 c' w' HF' (fun q Hq => Hm q (or_intror Hq)) Hr)
      as [H3 H4].
    cbn [List.length]. lia.
Qed.

End Futures.

Lemma submit_all_unit_results {E : Env} (l : list Path) (force : bool) :
  forall w, exists futures w',
    submit_all l force w = (Return futures, w')
    /\ Forall2 unit_result l futures.
Proof.
  induction l as [| p l IH]; intros w.
  - exists [], w. split; [reflexivity | constructor].
  - rewrite submit_all_cons.
    pose proof (process_file_unit_result p force w) as Hu.
    destruct (process_file p force w) as [r w1].
    destruct (IH w1) as (futures & w' & -> & HF).
    exists (r :: futures), w'. split; [reflexivity |].
    constructor; assumption.
Qed.

(** X4. Every submitted file gets exactly one future, in submission order,
    and [submit_all] itself never raises: the future of a media file holds
    an outcome for that very path with status [success] or [failed], or
    the exception the unit raised; the future of any other file holds
    [(path, skipped, unsupported)], never an exception. *)
Theorem units_in_submission_order {E : Env}
  (l : list Path) (force : bool) (w : World) :
  exists futures w',
    submit_all l force w = (Return futures, w')
    /\ Forall2 unit_result l futures.
Proof.
  destruct (submit_all_unit_results l force w) as (futures & w' & Hs & HF).
  exists futures, w'. split; assumption.
Qed.

(** X5. In the summary of a run whose units all returned, the count of
    cached files is always 0 and the successful and failed counts add up
    to the number of files found: a file whose variants were all cached is
    counted as failed, never as cached. *)
Theorem summary_counts {E : Env} (args : Args) (w w1 : World)
  (futures : list (res (Path * string * string))) :
  FS.is_dir (fs w) (directory args) = true ->
  dry_run args = false ->
  0 < workers args ->
  submit_all (find_media_files (fs w) (directory args) None) (force args)
    (scanned args w) = (Return futures, w1) ->
  Forall returned futures ->
  exists c w2,
    main args w
    = (Return (if failed c =? 0 then 0 else 1),
       mkWorld (fs w2) (now w2)
         (trace w2
          ++ summary_events c
               (len (find_media_files (fs w) (directory args) None)))%list)
    /\ cached c = 0
    /\ successful c = count_status "success" futures
    /\ failed c = count_status "failed" futures
    /\ successful c + failed c
       = Z.of_nat (List.length (find_media_files (fs w) (directory args) None)).
Proof.
  intros Hd Hdry Hw Hs Hall.
  rewrite (main_run _ _ Hd Hdry). cbv zeta.
  destruct (workers args <=? 0) eqn:Hle; [lia |]. rewrite Hs.
  destruct (collect_returns futures w1 Hall) as (c & w2 & Hc & Hf & Hsucc & _).
  rewrite Hc. exists c, w2. split; [reflexivity |].
  destruct (submit_all_unit_results
              (find_media_files (fs w) (directory args) None) (force args)
              (scanned args w)) as (futures' & w1' & Hs' & HF).
  rewrite Hs in Hs'. injection Hs' as <- <-.
  destruct (for_each_tally_counts _ _ _ _ _ _ HF
              (find_media_files_media (fs w) (directory args) None) Hc)
    as [H1 H2].
  cbn in H1, H2. repeat split; try assumption; lia.
Qed.

Lemma summary_counts_witness :
  exists c w2,
    main (E := Demo.env) (Demo.args ["srv"; "media"]) (Demo.world Demo.root 100)
    = (Return (if failed c =? 0 then 0 else 1),
       mkWorld (fs w2) (now w2) (trace w2 ++ summary_events c "3")%list)
    /\ cached c = 0
    /\ successful c + failed c = 3.
Proof.
  edestruct (summary_counts (E := Demo.env) (Demo.args ["srv"; "media"])
               (Demo.world Demo.root 100))
    as (c & w2 & Hm & Hc & _ & _ & Hsum).
  - reflexivity.
  - reflexivity.
  - reflexivity.
  - vm_compute. reflexivity.
  - repeat constructor; eexists; reflexivity.
  - exists c, w2. split; [exact Hm |]. split; [exact Hc | exact Hsum].
Defined.

(** ** The result loop does not depend on the completion order *)

Lemma filter_length_Permutation {A} (f : A -> bool) (l l' : list A) :
  Permutation l l' -> List.length (filter f l) = List.length (filter f l').
Proof.
  induction 1 as [| x l l' _ IH | x y l | l l' l'' _ IH1 _ IH2]; cbn.
  - reflexivity.
  - destruct (f x); cbn; now rewrite IH.
  - destruct (f x), (f y); reflexivity.
  - now rewrite IH1.
Qed.

Lemma count_cached_cons fut futures :
  count_cached (fut :: futures) = count_cached [fut] + count_cached futures.
Proof.
  unfold count_cached. cbn [filter].
  match goal with |- context [if ?b then _ else _] => destruct b end;
    cbn [List.length]; lia.
Qed.

Lemma count_status_split s fut futures :
  count_status s (fut :: futures) = count_status s [fut] + count_status s futures.
Proof.
  rewrite !count_status_cons. unfold count_status at 2. cbn. lia.
Qed.

Lemma tally_full c fut w c' w' :
  tally c fut w = (Return c', w') ->
  c' = mkCounts (successful c + count_status "success" [fut])
         (failed c + count_status "failed" [fut])
         (cached c + count_cached [fut]).
Proof.
  destruct fut as [[[fp status] details] | e]; [| discriminate].
  unfold tally, count_status, count_cached. unfold_monad. cbn [filter].
  destruct (String.eqb status "success") eqn:Hs.
  - apply String.eqb_eq in Hs. subst status. cbn.
    intros H. injection H as <- _. f_equal; lia.
  - destruct (String.eqb status "failed") eqn:Hf; cbn.
    + intros H. injection H as <- _. f_equal; lia.
    + destruct (Str.contains "cached" details); cbn;
        intros H; injection H as <- _; destruct c; cbn; f_equal; lia.
Qed.

Lemma for_each_tally_full futures : forall c w c' w',
  for_each futures tally c w = (Return c', w') ->
  c' = mkCounts (successful c + count_status "success" futures)
         (failed c + count_status "failed" futures)
         (cached c + count_cached futures).
Proof.
  induction futures as [| fut futures IH]; intros c w c' w' H.
  - cbn in H. unfold ret in H. injection H as <- _.
    unfold count_status, count_cached. cbn. destruct c; cbn; f_equal; lia.
  - cbn [for_each] in H. unfold bind at 1 in H.
    destruct (tally c fut w) as [[c1 | e] w1] eqn:Ht; [| discriminate].
    apply tally_full in Ht. apply IH in H. subst c' c1. cbn [successful failed cached].
    rewrite (count_status_split "success" fut futures),
      (count_status_split "failed" fut futures), (count_cached_cons fut futures).
    f_equal; lia.
Qed.

(** X6. The counters of the result loop depend only on which outcomes the
    futures hold, not on the order in which they complete: for any
    reordering of the futures the loop returns the same counters (hence the
    same summary and exit code) when every unit returned, and raises when
    one of them raised. *)
Theorem collect_order_independent
  (futures futures' : list (res (Path * string * string))) (w w' : World) :
  Permutation futures futures' ->
  (Forall returned futures ->
   exists c w1 w1',
     collect futures w = (Return c, w1)
     /\ collect futures' w' = (Return c, w1')
     /\ c = mkCounts (count_status "success" futures)
              (count_status "failed" futures) (count_cached futures))
  /\ ((exists e0, In (Raise e0) futures) ->
      exists e e' w1 w1',
        collect futures w = (Raise e, w1)
        /\ collect futures' w' = (Raise e', w1')).
Proof.
  intros HP. split.
  - intros Hall.
    assert (Hall' : Forall returned futures')
      by (eapply Permutation_Forall; eassumption).
    destruct (collect_returns futures w Hall) as (c & w1 & Hc & _).
    destruct (collect_returns futures' w' Hall') as (c' & w1' & Hc' & _).
    exists c, w1, w1'. split; [exact Hc |].
    pose proof (for_each_tally_full _ _ _ _ _ Hc) as Hv.
    pose proof (for_each_tally_full _ _ _ _ _ Hc') as Hv'.
    cbn [successful failed cached] in Hv, Hv'. rewrite !Z.add_0_l in Hv, Hv'.
    assert (Heq : c' = c).
    { rewrite Hv, Hv'. unfold count_status, count_cached.
      now rewrite !(filter_length_Permutation _ _ _ HP). }
    split; [now rewrite <- Heq | exact Hv].
  - intros (e0 & He0).
    assert (Hn : ~ Forall returned futures).
    { intros H. rewrite Forall_forall in H. destruct (H _ He0) as [o Ho].
      discriminate. }
    assert (Hn' : ~ Forall returned futures').
    { intros H. apply Hn. eapply Permutation_Forall; [| exact H].
      now apply Permutation_sym. }
    destruct (collect_raises futures w Hn) as (e & w1 & Hc & _).
    destruct (collect_raises futures' w' Hn') as (e' & w1' & Hc' & _).
    exists e, e', w1, w1'. split; assumption.
Qed.

Lemma collect_order_independent_witness :
  exists c w1 w1',
    collect [Return (["a.jpg"], "success", "normal:ok,large:ok");
             Return (["b.jpg"], "failed", "normal:cached,large:cached")]
      (Demo.world Demo.root 100) = (Return c, w1)
    /\ collect [Return (["b.jpg"], "failed", "normal:cached,large:cached");
                Return (["a.jpg"], "success", "normal:ok,large:ok")]
         (Demo.world Demo.root 100) = (Return c, w1')
    /\ c = mkCounts 1 1 0.
Proof.
  edestruct (collect_order_independent
               [Return (["a.jpg"], "success", "normal:ok,large:ok");
                Return (["b.jpg"], "failed", "normal:cached,large:cached")]
               [Return (["b.jpg"], "failed", "normal:cached,large:cached");
                Return (["a.jpg"], "success", "normal:ok,large:ok")]
               (Demo.world Demo.root 100) (Demo.world Demo.root 100))
    as [H _].
  - apply perm_swap.
  - destruct H as (c & w1 & w1' & H1 & H2 & H3).
    + repeat constructor; eexists; reflexivity.
    + exists c, w1, w1'. repeat split; assumption.
Defined.

(** ** Edges of a run *)



(** X8. A run on a directory in which the scanner finds no media file
    returns 0 and touches nothing: no directory is created and the trace
    holds the scan lines and a summary of zeros. *)
Theorem run_without_media {E : Env} (args : Args) (w : World) :
  FS.is_dir (fs w) (directory args) = true ->
  dry_run args = false ->
  0 < workers args ->
  find_media_files (fs w) (directory args) None = [] ->
  main args w
  = (Return 0,
     mkWorld (fs w) (now w)
       (trace w ++ scan_events (fs w) (directory args)
        ++ summary_events (mkCounts 0 0 0) "0")%list).
Proof.
  intros Hd Hdry Hw Hnone.
  rewrite (main_run _ _ Hd Hdry). cbv zeta.
  destruct (workers args <=? 0) eqn:Hle; [lia |].
  rewrite Hnone. cbn [submit_all]. unfold ret at 1.
  unfold collect. cbn [for_each]. unfold ret at 1.
  cbn [failed Z.eqb fs now trace scanned]. rewrite <- app_assoc. reflexivity.
Qed.

Lemma run_without_media_witness :
  fst (main (E := Demo.env) (Demo.args ["srv"; "docs"]) (Demo.world Demo.docs 100))
  = Return 0
  /\ fs (snd (main (E := Demo.env) (Demo.args ["srv"; "docs"])
                (Demo.world Demo.docs 100)))
     = Demo.docs.
Proof.
  rewrite (run_without_media (E := Demo.env) (Demo.args ["srv"; "docs"])
             (Demo.world Demo.docs 100) eq_refl eq_refl eq_refl eq_refl).
  split; reflexivity.
Defined.




Lemma image_renderer_diagnostic_witness :
  exists b w',
    generate_image_thumbnail (E := Demo.env) ["srv"; "nowhere.jpg"]
      ["srv"; "out.png"] 128 (Demo.world Demo.root 100) = (Return b, w')
    /\ b = false /\ fs w' = Demo.root.
Proof.
  destruct (image_renderer_diagnostic (E := Demo.env) ["srv"; "nowhere.jpg"]
              ["srv"; "out.png"] 128 (Demo.world Demo.root 100))
    as (b & w' & l & Hg & _ & _ & _ & H).
  exists b, w'. split; [exact Hg |].
  exact (H FileNotFoundError eq_refl).
Defined.

Lemma video_renderer_result_witness :
  exists msg w',
    generate_video_thumbnail (E := Demo.env) ["v"; "clip.mp4"] ["v"; "out.png"] 128
      (Demo.world Demo.clips 100) = (Return false, w')
    /\ msg = "ffmpeg not found. Please install ffmpeg to generate video thumbnails."
    /\ trace w' = [RenderVideo ["v"; "clip.mp4"] ["v"; "out.png"] 128; Log ERROR msg].
Proof.
  pose proof (video_renderer_result (E := Demo.env) ["v"; "clip.mp4"]
                ["v"; "out.png"] 128 (Demo.world Demo.clips 100)) as H.
  cbn [subprocess_run Demo.env] in H.
  destruct H as (msg & Hg & Hm & _).
  exists msg. eexists. split; [exact Hg |]. split; [exact (Hm eq_refl) | reflexivity].
Defined.

(** ** The cache directories *)

Lemma assoc_update_same c ch' es :
  FS.assoc c es <> None -> FS.assoc c (FS.update c ch' es) = Some ch'.
Proof.
  induction es as [| [k n] es IH]; cbn; [congruence |].
  destruct (String.eqb c k) eqn:Hck; cbn; rewrite Hck; auto.
Qed.

Lemma assoc_update_other c c' ch' es :
  c' <> c -> FS.assoc c' (FS.update c ch' es) = FS.assoc c' es.
Proof.
  intros Hne. induction es as [| [k n] es IH]; cbn; [reflexivity |].
  destruct (String.eqb c k) eqn:Hck; cbn.
  - apply String.eqb_eq in Hck. subst k.
    destruct (String.eqb c' c) eqn:Hc; [| reflexivity].
    apply String.eqb_eq in Hc. contradiction.
  - now rewrite IH.
Qed.

Lemma assoc_app_new c' c x es :
  FS.assoc c es = None ->
  FS.assoc c' (es ++ [(c, x)]) =
  match FS.assoc c' es with
  | Some y => Some y
  | None => if String.eqb c' c then Some x else None
  end.
Proof.
  intros _. induction es as [| [k n] es IH]; cbn; [reflexivity |].
  destruct (String.eqb c' k); [reflexivity | exact IH].
Qed.

Lemma assoc_eqb c c' es :
  String.eqb c' c = true -> FS.assoc c' es = FS.assoc c es.
Proof. intros H. apply String.eqb_eq in H. now subst. Qed.

(** A directory created empty holds no file, whatever is then created in
    it. *)
Lemma mkdir_fresh_no_file t p : forall t0 n' q m d,
  FS.mkdir t (Dir t0 []) p = Return n' ->
  FS.lookup n' q <> Return (File m d).
Proof.
  induction p as [| c p IH]; intros t0 n' q m d H; cbn in H.
  - injection H as <-. destruct q; cbn; discriminate.
  - destruct (FS.mkdir t (Dir t []) p) as [ch' | e] eqn:Hm; [| discriminate].
    injection H as <-. destruct q as [| c' q]; cbn; [discriminate |].
    destruct (String.eqb c' c); [| discriminate].
    eapply IH; eassumption.
Qed.

(** [mkdir] neither adds, removes nor changes a regular file. *)
Lemma mkdir_files t p : forall n n' q m d,
  FS.mkdir t n p = Return n' ->
  FS.lookup n' q = Return (File m d) <-> FS.lookup n q = Return (File m d).
Proof.
  induction p as [| c p IH]; intros n n' q m d H; cbn in H.
  - destruct n; [discriminate |]. injection H as <-. reflexivity.
  - destruct n as [fm fd | dm es]; [discriminate |].
    destruct (FS.assoc c es) as [ch |] eqn:Hc.
    + destruct (FS.mkdir t ch p) as [ch' | e] eqn:Hm; [| discriminate].
      injection H as <-. destruct q as [| c' q]; cbn; [split; discriminate |].
      destruct (String.eqb c' c) eqn:Hcc.
      * apply String.eqb_eq in Hcc. subst c'.
        rewrite assoc_update_same by congruence. rewrite Hc.
        eapply IH; eassumption.
      * rewrite assoc_update_other; [reflexivity |].
        intros ->. rewrite String.eqb_refl in Hcc. discriminate.
    + destruct (FS.mkdir t (Dir t []) p) as [ch' | e] eqn:Hm; [| discriminate].
      injection H as <-. destruct q as [| c' q]; cbn; [split; discriminate |].
      rewrite (assoc_app_new c' c ch' es Hc).
      destruct (FS.assoc c' es) as [y |] eqn:Hy; [reflexivity |].
      destruct (String.eqb c' c) eqn:Hcc.
      * split; [| discriminate]. intros Hl.
        exfalso. eapply mkdir_fresh_no_file; eassumption.
      * reflexivity.
Qed.

(** After [mkdir] the directory is there. *)
Lemma mkdir_is_dir t p : forall n n',
  FS.mkdir t n p = Return n' -> FS.is_dir n' p = true.
Proof.
  unfold FS.is_dir.
  induction p as [| c p IH]; intros n n' H; cbn in H.
  - destruct n; [discriminate |]. injection H as <-. reflexivity.
  - destruct n as [fm fd | dm es]; [discriminate |].
    destruct (FS.assoc c es) as [ch |] eqn:Hc.
    + destruct (FS.mkdir t ch p) as [ch' | e] eqn:Hm; [| discriminate].
      injection H as <-. cbn. rewrite assoc_update_same by congruence.
      eapply IH; eassumption.
    + destruct (FS.mkdir t (Dir t []) p) as [ch' | e] eqn:Hm; [| discriminate].
      injection H as <-. cbn. rewrite (assoc_app_new c c ch' es Hc), Hc.
      rewrite String.eqb_refl. eapply IH; eassumption.
Qed.

(** [mkdir] keeps every directory that was there. *)
Lemma mkdir_keeps_dirs t p : forall n n' q,
  FS.mkdir t n p = Return n' ->
  FS.is_dir n q = true -> FS.is_dir n' q = true.
Proof.
  unfold FS.is_dir.
  induction p as [| c p IH]; intros n n' q H Hq; cbn in H.
  - destruct n; [discriminate |]. injection H as <-. exact Hq.
  - destruct n as [fm fd | dm es]; [discriminate |].
    destruct (FS.assoc c es) as [ch |] eqn:Hc.
    + destruct (FS.mkdir t ch p) as [ch' | e] eqn:Hm; [| discriminate].
      injection H as <-. destruct q as [| c' q]; cbn in *; [reflexivity |].
      destruct (String.eqb c' c) eqn:Hcc.
      * apply String.eqb_eq in Hcc. subst c'.
        rewrite assoc_update_same by congruence. rewrite Hc in Hq.
        eapply IH; eassumption.
      * rewrite assoc_update_other; [exact Hq |].
        intros ->. rewrite String.eqb_refl in Hcc. discriminate.
    + destruct (FS.mkdir t (Dir t []) p) as [ch' | e] eqn:Hm; [| discriminate].
      injection H as <-. destruct q as [| c' q]; cbn in *; [reflexivity |].
      rewrite (assoc_app_new c' c ch' es Hc).
      destruct (FS.assoc c' es) as [y |] eqn:Hy; [exact Hq | discriminate].
Qed.

(** [mkdir] fails exactly when a regular file is in the way. *)
Lemma mkdir_raises_iff t p : forall n,
  (exists e, FS.mkdir t n p = Raise e) <-> file_in_the_way n p.
Proof.
  unfold file_in_the_way.
  induction p as [| c p IH]; intros n.
  - cbn. split.
    + intros [e H]. destruct n as [m d | m es]; [| discriminate].
      exists 0%nat, m, d. reflexivity.
    + intros (k & m & d & H). rewrite firstn_nil in H. cbn in H.
      injection H as ->. eauto.
  - split.
    + intros [e H]. cbn in H. destruct n as [m d | m es].
      * exists 0%nat, m, d. reflexivity.
      * destruct (FS.assoc c es) as [ch |] eqn:Hc.
        -- destruct (FS.mkdir t ch p) as [ch' | e'] eqn:Hm; [discriminate |].
           destruct (proj1 (IH ch) (ex_intro _ e' Hm)) as (k & m' & d & Hk).
           exists (S k), m', d. cbn. now rewrite Hc.
        -- destruct (FS.mkdir t (Dir t []) p) as [ch' | e'] eqn:Hm; [discriminate |].
           destruct (proj1 (IH (Dir t [])) (ex_intro _ e' Hm)) as (k & m' & d & Hk).
           exfalso. destruct (firstn k p); cbn in Hk; discriminate.
    + intros (k & m & d & H). destruct n as [fm fd | dm es]; [cbn; eauto |].
      destruct k as [| k]; [discriminate |]. cbn in H.
      destruct (FS.assoc c es) as [ch |] eqn:Hc; [| discriminate].
      destruct (proj2 (IH ch) (ex_intro _ k (ex_intro _ m (ex_intro _ d H))))
        as [e He].
      exists e. cbn. now rewrite Hc, He.
Qed.

Lemma file_in_the_way_mkdir t n p n' q :
  FS.mkdir t n p = Return n' -> file_in_the_way n' q <-> file_in_the_way n q.
Proof.
  intros H. unfold file_in_the_way.
  split; intros (k & m & d & Hk); exists k, m, d;
    now apply (mkdir_files _ _ _ _ _ _ _ H).
Qed.

Lemma file_in_the_way_not_dir n p :
  file_in_the_way n p -> FS.is_dir n p = false.
Proof.
  intros H. apply (mkdir_raises_iff 0) in H. destruct H as [e He].
  destruct (FS.is_dir n p) eqn:Hd; [| reflexivity].
  rewrite (mkdir_existing _ _ _ Hd) in He. discriminate.
Qed.

Lemma path_mkdir_blocked {E : Env} p w :
  file_in_the_way (fs w) p ->
  exists e, path_mkdir p w = (Raise e, after (Mkdir p) w).
Proof.
  intros H. rewrite path_mkdir_eq, (file_in_the_way_not_dir _ _ H).
  destruct (mkdir_refused (fs w) p) as [e |]; [eauto |].
  apply (mkdir_raises_iff (now w)) in H. destruct H as [e ->]. eauto.
Qed.

(** X10. When [create_thumbnail_dirs] returns, its dictionary maps [normal]
    and [large] to the two directories under [.thumbnails], both are
    directories afterwards (the parent is created too if it was missing),
    and a second call returns the same dictionary without changing the
    filesystem. *)
Theorem create_thumbnail_dirs_layout {E : Env}
  (d : Path) (w w' : World) (dirs : list (string * Path)) :
  create_thumbnail_dirs d w = (Return dirs, w') ->
  dirs = [("normal", d // ".thumbnails" // "normal");
          ("large", d // ".thumbnails" // "large")]
  /\ FS.is_dir (fs w') (d // ".thumbnails" // "normal") = true
  /\ FS.is_dir (fs w') (d // ".thumbnails" // "large") = true
  /\ create_thumbnail_dirs d w'
     = (Return dirs,
        mkWorld (fs w') (now w')
          (trace w' ++ [Mkdir (d // ".thumbnails" // "normal");
                        Mkdir (d // ".thumbnails" // "large")])%list).
Proof.
  intros H. pose proof (create_thumbnail_dirs_standard _ _ _ _ H) as Hd.
  rewrite create_thumbnail_dirs_eq in H.
  destruct (path_mkdir _ w) as [[u1 | e] w1] eqn:P1; [| discriminate].
  destruct (path_mkdir _ w1) as [[u2 | e] w2] eqn:P2; [| discriminate].
  injection H as _ <-.
  apply path_mkdir_returns in P1, P2.
  destruct P1 as (M1 & _ & _), P2 as (M2 & _ & _).
  assert (D2 : FS.is_dir (fs w2) (d // ".thumbnails" // "large") = true)
    by (eapply mkdir_is_dir; eassumption).
  assert (D1 : FS.is_dir (fs w2) (d // ".thumbnails" // "normal") = true).
  { eapply mkdir_keeps_dirs; [eassumption |]. eapply mkdir_is_dir; eassumption. }
  split; [exact Hd |]. split; [exact D1 |]. split; [exact D2 |].
  rewrite create_thumbnail_dirs_eq.
  rewrite path_mkdir_existing by exact D1.
  rewrite path_mkdir_existing by exact D2.
  subst dirs. unfold after. cbn [fs now trace]. rewrite <- app_assoc. reflexivity.
Qed.

Lemma create_thumbnail_dirs_layout_witness :
  exists dirs w',
    create_thumbnail_dirs (E := Demo.env) ["srv"; "media"; "2023"]
      (Demo.world Demo.root 100) = (Return dirs, w')
    /\ FS.is_dir (fs w') ["srv"; "media"; "2023"; ".thumbnails"; "large"] = true.
Proof.
  destruct (create_thumbnail_dirs (E := Demo.env) ["srv"; "media"; "2023"]
              (Demo.world Demo.root 100)) as [[dirs | e] w'] eqn:H.
  - exists dirs, w'. split; [reflexivity |].
    exact (proj1 (proj2 (proj2
             (create_thumbnail_dirs_layout _ _ _ _ H)))).
  - exfalso. revert H. vm_compute. discriminate.
Defined.

(** X11. [create_thumbnail_dirs] neither adds, removes nor changes a regular
    file, keeps every directory that was there and leaves the clock alone,
    whether it returns or raises. *)
Theorem create_thumbnail_dirs_keeps_files {E : Env} (d : Path) (w : World) :
  let w' := snd (create_thumbnail_dirs d w) in
  (forall q m data,
      FS.lookup (fs w') q = Return (File m data)
      <-> FS.lookup (fs w) q = Return (File m data))
  /\ (forall q, FS.is_dir (fs w) q = true -> FS.is_dir (fs w') q = true)
  /\ now w' = now w.
Proof.
  cbv zeta. rewrite create_thumbnail_dirs_eq.
  destruct (path_mkdir _ w) as [[u1 | e] w1] eqn:P1.
  2:{ apply path_mkdir_raises in P1. destruct P1 as (_ & ->).
      cbn [snd fs now after]. repeat split; auto. }
  apply path_mkdir_returns in P1. destruct P1 as (M1 & N1 & _).
  destruct (path_mkdir _ w1) as [[u2 | e] w2] eqn:P2; cbn [snd].
  - apply path_mkdir_returns in P2. destruct P2 as (M2 & N2 & _).
    rewrite N1 in M2.
    split; [| split; [| congruence]].
    + intros q m data. rewrite (mkdir_files _ _ _ _ q m data M2).
      apply (mkdir_files _ _ _ _ q m data M1).
    + intros q Hq. eapply mkdir_keeps_dirs; [eassumption |].
      eapply mkdir_keeps_dirs; eassumption.
  - apply path_mkdir_raises in P2. destruct P2 as (_ & ->). cbn [fs now after].
    split; [| split; [| congruence]].
    + intros q m data. apply (mkdir_files _ _ _ _ q m data M1).
    + intros q Hq. eapply mkdir_keeps_dirs; eassumption.
Qed.

(** X12. [create_thumbnail_dirs] raises whenever a regular file is in the
    way of one of the two directories, that is, when the directory itself,
    one of its ancestors, [.thumbnails], [normal] or [large] is a regular
    file; and it returns, leaving the filesystem as it is, whenever both
    directories are there already. *)
Theorem create_thumbnail_dirs_blocked {E : Env} (d : Path) (w : World) :
  (file_in_the_way (fs w) (d // ".thumbnails" // "normal")
   \/ file_in_the_way (fs w) (d // ".thumbnails" // "large") ->
   exists e w', create_thumbnail_dirs d w = (Raise e, w'))
  /\ (FS.is_dir (fs w) (d // ".thumbnails" // "normal") = true ->
      FS.is_dir (fs w) (d // ".thumbnails" // "large") = true ->
      exists w',
        create_thumbnail_dirs d w
        = (Return [("normal", d // ".thumbnails" // "normal");
                   ("large", d // ".thumbnails" // "large")], w')
        /\ fs w' = fs w).
Proof.
  split.
  - rewrite create_thumbnail_dirs_eq. intros [H | H].
    + destruct (path_mkdir_blocked _ _ H) as [e ->]. eauto.
    + destruct (path_mkdir _ w) as [[u1 | e] w1] eqn:P1; [| eauto].
      apply path_mkdir_returns in P1. destruct P1 as (M1 & _).
      apply (file_in_the_way_mkdir _ _ _ _ (d // ".thumbnails" // "large") M1) in H.
      destruct (path_mkdir_blocked _ _ H) as [e ->]. eauto.
  - intros D1 D2. rewrite create_thumbnail_dirs_eq.
    rewrite (path_mkdir_existing _ _ D1).
    rewrite path_mkdir_existing by exact D2.
    eexists. split; reflexivity.
Qed.

Lemma create_thumbnail_dirs_blocked_witness :
  exists e w',
    create_thumbnail_dirs (E := Demo.env) ["data"; "pics"]
      (Demo.world Demo.blocked 100) = (Raise e, w').
Proof.
  apply (proj1 (create_thumbnail_dirs_blocked (E := Demo.env) ["data"; "pics"]
                  (Demo.world Demo.blocked 100))).
  left. exists 3%nat, 3, "". reflexivity.
Defined.

(** ** More on the scanner *)

Lemma unique_names_dir m es :
  unique_names (Dir m es) <->
  NoDup (map fst es) /\ Forall (fun e => unique_names (snd e)) es.
Proof.
  cbn [unique_names]. apply and_iff_compat_l.
  induction es as [| [c ch] es IH].
  - split; constructor.
  - split.
    + intros [H1 H2]. constructor; [exact H1 | now apply IH].
    + intros H. inversion H as [| ? ? H1 H2]; subst. split; [exact H1 | now apply IH].
Qed.

Lemma assoc_In c ch es : FS.assoc c es = Some ch -> In (c, ch) es.
Proof.
  induction es as [| [k n] es IH]; cbn; [discriminate |].
  destruct (String.eqb c k) eqn:Hck.
  - apply String.eqb_eq in Hck. subst k. intros H. injection H as <-. now left.
  - intros H. right. now apply IH.
Qed.

Lemma In_assoc c ch es :
  NoDup (map fst es) -> In (c, ch) es -> FS.assoc c es = Some ch.
Proof.
  induction es as [| [k n] es IH]; cbn; [intros _ [] |].
  intros Hnd [Heq | Hin]; inversion Hnd as [| ? ? Hk Hnd']; subst.
  - injection Heq as -> ->. now rewrite String.eqb_refl.
  - destruct (String.eqb c k) eqn:Hck.
    + apply String.eqb_eq in Hck. subst k. exfalso. apply Hk.
      apply in_map_iff. exists (c, ch). auto.
    + now apply IH.
Qed.

Lemma lookup_app (p q : Path) : forall n,
  FS.lookup n (p ++ q)%list =
  match FS.lookup n p with
  | Return x => FS.lookup x q
  | Raise e => Raise e
  end.
Proof.
  induction p as [| c p IH]; intros n; cbn; [reflexivity |].
  destruct n as [m d | m es]; [reflexivity |].
  destruct (FS.assoc c es); [apply IH | reflexivity].
Qed.

Lemma lookup_unique_names p : forall n x,
  unique_names n -> FS.lookup n p = Return x -> unique_names x.
Proof.
  induction p as [| c p IH]; intros n x Hu H; cbn in H.
  - now injection H as <-.
  - destruct n as [m d | m es]; [discriminate |].
    destruct (FS.assoc c es) as [ch |] eqn:Hc; [| discriminate].
    apply unique_names_dir in Hu. destruct Hu as [_ Hall].
    rewrite Forall_forall in Hall.
    eapply IH; [| eassumption]. exact (Hall _ (assoc_In _ _ _ Hc)).
Qed.

Lemma descends_lookup n ds n' :
  unique_names n -> descends n ds n' -> FS.lookup n ds = Return n'.
Proof.
  intros Hu Hd. induction Hd as [n | m es c ch ds n' Hin Hd IH]; [reflexivity |].
  apply unique_names_dir in Hu. destruct Hu as [Hnd Hall].
  cbn. rewrite (In_assoc _ _ _ Hnd Hin). apply IH.
  rewrite Forall_forall in Hall. exact (Hall _ Hin).
Qed.

(** What the scanner yields, in terms of the tree below the root. *)
Lemma find_media_files_descends n root_dir exclude_dirs m es p :
  FS.lookup n root_dir = Return (Dir m es) ->
  In p (find_media_files n root_dir exclude_dirs) <->
  exists ds name m' es' fm fd,
    p = (root_dir ++ ds ++ [name])%list
    /\ descends (Dir m es) ds (Dir m' es')
    /\ In (name, File fm fd) es'
    /\ is_media p = true
    /\ Forall (fun d => ~ In d (excluded_names exclude_dirs)) ds.
Proof.
  intros Hl. rewrite find_media_files_In. split.
  - intros (r & dirs & files & file & Hw & Hf & -> & Hm).
    apply (walk_In _ _ _ _ _ _ _ _ Hl) in Hw.
    destruct Hw as (ds & m' & es' & Hd & Hk & -> & -> & ->).
    apply filenames_In in Hf. destruct Hf as (fm & fd & Hf).
    exists ds, file, m', es', fm, fd. repeat split; try assumption.
    + unfold PurePath.div. now rewrite <- app_assoc.
    + now apply forallb_not_excluded.
  - intros (ds & name & m' & es' & fm & fd & -> & Hd & Hf & Hm & Hk).
    exists (root_dir ++ ds)%list, (FS.dirnames es'), (FS.filenames es'), name.
    repeat split.
    + apply (walk_In _ _ _ _ _ _ _ _ Hl). exists ds, m', es'.
      repeat split; try assumption. now apply forallb_not_excluded.
    + apply filenames_In. eauto.
    + unfold PurePath.div. now rewrite <- app_assoc.
    + exact Hm.
Qed.

Lemma find_media_files_root_is_dir n root_dir exclude_dirs p :
  In p (find_media_files n root_dir exclude_dirs) ->
  exists m es, FS.lookup n root_dir = Return (Dir m es).
Proof.
  intros H. destruct (FS.lookup n root_dir) as [[m d | m es] | e] eqn:Hl; eauto.
  - rewrite find_media_files_no_dir in H; [destruct H |].
    unfold FS.is_dir. now rewrite Hl.
  - rewrite find_media_files_no_dir in H; [destruct H |].
    unfold FS.is_dir. now rewrite Hl.
Qed.

(** X13. In a tree where names are unique within each directory, every path
    the scanner yields lies strictly below the root, has a media extension
    and is not a directory. *)
Theorem scanned_files_below_root
  (n : node) (root_dir : Path) (exclude_dirs : option (list string)) (p : Path) :
  unique_names n ->
  In p (find_media_files n root_dir exclude_dirs) ->
  (exists rel, p = (root_dir ++ rel)%list /\ rel <> [])
  /\ is_media p = true
  /\ FS.is_dir n p = false.
Proof.
  intros Hu Hin.
  destruct (find_media_files_root_is_dir _ _ _ _ Hin) as (m & es & Hl).
  pose proof (proj1 (find_media_files_descends _ _ _ _ _ _ Hl) Hin)
    as (ds & name & m' & es' & fm & fd & -> & Hd & Hf & Hm & _).
  split; [| split; [exact Hm |]].
  - exists (ds ++ [name])%list. split; [reflexivity |].
    intros H. apply app_eq_nil in H. destruct H as [_ H]. discriminate.
  - assert (Hlk : FS.lookup n (root_dir ++ ds ++ [name])%list = Return (File fm fd)).
    { rewrite lookup_app, Hl.
      pose proof (lookup_unique_names _ _ _ Hu Hl) as Hu'.
      rewrite lookup_app, (descends_lookup _ _ _ Hu' Hd).
      pose proof (lookup_unique_names _ _ _ Hu' (descends_lookup _ _ _ Hu' Hd)) as Hu''.
      apply unique_names_dir in Hu''. destruct Hu'' as [Hnd _].
      cbn. now rewrite (In_assoc _ _ _ Hnd Hf). }
    unfold FS.is_dir. now rewrite Hlk.
Qed.

Lemma scanned_files_below_root_witness :
  is_media ["srv"; "media"; "2023"; "IMG_1.JPEG"] = true
  /\ FS.is_dir Demo.root ["srv"; "media"; "2023"; "IMG_1.JPEG"] = false.
Proof.
  refine (proj2 (scanned_files_below_root Demo.root ["srv"; "media"] None
                   ["srv"; "media"; "2023"; "IMG_1.JPEG"] _ _)).
  - cbn. repeat (split; try (repeat constructor; cbn; intuition discriminate)).
  - vm_compute. tauto.
Defined.

(** X14. Excluding more directory names never adds a file: the files found
    with a larger excluded set are among those found with a smaller one. *)
Theorem find_media_files_antitone
  (n : node) (root_dir : Path) (excl1 excl2 : list string) (p : Path) :
  (forall d, In d excl1 -> In d excl2) ->
  In p (find_media_files n root_dir (Some excl2)) ->
  In p (find_media_files n root_dir (Some excl1)).
Proof.
  intros Hsub Hin.
  destruct (find_media_files_root_is_dir _ _ _ _ Hin) as (m & es & Hl).
  apply (find_media_files_descends _ _ _ _ _ _ Hl) in Hin.
  apply (find_media_files_descends _ _ _ _ _ _ Hl).
  destruct Hin as (ds & name & m' & es' & fm & fd & Hp & Hd & Hf & Hm & Hk).
  exists ds, name, m', es', fm, fd. repeat split; try assumption.
  cbn [excluded_names] in *. rewrite Forall_forall in *.
  intros d Hd' Hex. exact (Hk d Hd' (Hsub d Hex)).
Qed.

Lemma find_media_files_antitone_witness :
  In ["srv"; "media"; "photo.jpg"]
    (find_media_files Demo.root ["srv"; "media"] (Some [])).
Proof.
  apply (find_media_files_antitone Demo.root ["srv"; "media"] [] ["2023"]).
  - intros d [].
  - vm_compute. tauto.
Defined.

(** X15. Exclusion is by directory name only: a media file is yielded
    whenever no directory between the root and the file is excluded, even
    if the name of the file itself is in the excluded set. *)
Theorem excluded_name_of_a_file
  (n : node) (root_dir : Path) (excl : list string)
  (m : Z) (es : list (string * node)) (name : string) (fm : Z) (fd : string) :
  FS.lookup n root_dir = Return (Dir m es) ->
  In (name, File fm fd) es ->
  is_media (root_dir // name) = true ->
  In (root_dir // name) (find_media_files n root_dir (Some excl)).
Proof.
  intros Hl Hf Hm. apply (find_media_files_descends _ _ _ _ _ _ Hl).
  exists [], name, m, es, fm, fd.
  split; [reflexivity |]. split; [constructor |]. split; [exact Hf |].
  split; [exact Hm | constructor].
Qed.

Lemma excluded_name_of_a_file_witness :
  In ["srv"; "media"; "photo.jpg"]
    (find_media_files Demo.root ["srv"; "media"] (Some ["photo.jpg"])).
Proof.
  apply (excluded_name_of_a_file Demo.root ["srv"; "media"] ["photo.jpg"] 0
           [ ("photo.jpg", File 10 "jpeg");
             ("clip.mp4", File 10 "mp4");
             ("notes.txt", File 10 "text");
             ("2023", Dir 0 [ ("IMG_1.JPEG", File 20 "jpeg") ]);
             ("@eaDir",
              Dir 0 [ ("photo.jpg",
                       Dir 0 [ ("SYNOPHOTO_THUMB_M.jpg", File 5 "jpeg") ]) ]) ]
           "photo.jpg" 10 "jpeg").
  - reflexivity.
  - cbn. tauto.
  - reflexivity.
Defined.

(** X16. With the default excluded set the scanner never yields a cache
    entry: the thumbnails written for the files below the root, although
    they are [.png] files, are not themselves found by a later scan. *)
Theorem cache_entries_not_scanned {E : Env}
  (n : node) (root_dir : Path) (rel : list string) (size_name : string) :
  rel <> [] ->
  ~ In (entry_path (root_dir ++ rel)%list size_name)
       (find_media_files n root_dir None).
Proof.
  intros Hrel Hin.
  destruct (find_media_files_root_is_dir _ _ _ _ Hin) as (m & es & Hl).
  apply (find_media_files_descends _ _ _ _ _ _ Hl) in Hin.
  destruct Hin as (ds & name & _ & _ & _ & _ & Heq & _ & _ & _ & Hk).
  destruct (exists_last Hrel) as (rel' & r0 & ->).
  unfold entry_path, PurePath.div, PurePath.parent in Heq.
  set (fn := thumbnail_name _) in Heq. clearbody fn.
  rewrite app_assoc, removelast_last in Heq.
  rewrite <- !app_assoc in Heq. apply app_inv_head in Heq.
  assert (H : ((rel' ++ [".thumbnails"; size_name]) ++ [fn])%list
              = (ds ++ [name])%list).
  { rewrite <- app_assoc. exact Heq. }
  apply app_inj_tail in H. destruct H as [<- _].
  rewrite Forall_forall in Hk. apply (Hk ".thumbnails").
  - apply in_or_app. right. now left.
  - cbn. now left.
Qed.

Lemma cache_entries_not_scanned_witness :
  ~ In (entry_path (E := Demo.env) ["p"; "photo.jpg"] "normal")
       (find_media_files Demo.photos_done ["p"] None).
Proof.
  apply (cache_entries_not_scanned (E := Demo.env) Demo.photos_done ["p"]
           ["photo.jpg"] "normal").
  discriminate.
Defined.

(** ** No file is found twice *)

Lemma find_media_files_eq n root_dir exclude_dirs :
  find_media_files n root_dir exclude_dirs
  = flat_map media_in
      (FS.walk (fun d => negb (Str.mem d (excluded_names exclude_dirs))) n root_dir).
Proof.
  unfold find_media_files, excluded_names, default_exclude_dirs.
  apply flat_map_ext. intros [[r dirs] files]. reflexivity.
Qed.

Lemma NoDup_map_filter_fst (f : string * node -> bool) es :
  NoDup (map fst es) -> NoDup (map fst (filter f es)).
Proof.
  induction es as [| e es IH]; cbn; [constructor |].
  intros H. inversion H as [| ? ? Hn Hnd]; subst.
  destruct (f e); cbn; [constructor |]; auto.
  intros Hin. apply Hn. apply in_map_iff in Hin.
  destruct Hin as (x & Hx & Hin). apply filter_In in Hin.
  apply in_map_iff. exists x. tauto.
Qed.

Lemma NoDup_map_div (top : Path) files :
  NoDup files -> NoDup (map (fun file => top // file) files).
Proof.
  induction 1 as [| x l Hx _ IH]; cbn; constructor; [| exact IH].
  intros Hin. apply in_map_iff in Hin. destruct Hin as (y & Hy & Hin).
  unfold PurePath.div in Hy. apply app_inj_tail in Hy.
  destruct Hy as [_ ->]. contradiction.
Qed.

(** The media files found from [top] lie strictly below [top]. *)
Lemma media_below keep n top p :
  In p (flat_map media_in (FS.walk_node keep top n)) ->
  exists ds name, p = (top ++ ds ++ [name])%list.
Proof.
  intros H. apply in_flat_map in H. destruct H as ([[r dirs] files] & Hw & Hp).
  apply walk_node_In in Hw. destruct Hw as (ds & _ & _ & _ & _ & -> & _).
  cbn in Hp. apply filter_In in Hp. destruct Hp as [Hp _].
  apply in_map_iff in Hp. destruct Hp as (file & <- & _).
  exists ds, file. unfold PurePath.div. now rewrite <- app_assoc.
Qed.

Lemma NoDup_media keep n : forall top,
  unique_names n -> NoDup (flat_map media_in (FS.walk_node keep top n)).
Proof.
  induction n as [m d | m es IH] using node_induction; intros top Hu.
  - constructor.
  - rewrite walk_node_dir. cbn [flat_map].
    apply unique_names_dir in Hu. destruct Hu as [Hnd Hall].
    apply NoDup_app.
    + cbn [media_in]. apply NoDup_filter, NoDup_map_div.
      unfold FS.filenames. now apply NoDup_map_filter_fst.
    + clear - IH Hnd Hall.
      induction es as [| [c ch] es IHes]; [constructor |].
      cbn [flat_map fst snd]. rewrite flat_map_app.
      inversion IH as [| ? ? IHc IHrest]; subst.
      inversion Hall as [| ? ? Huc Hurest]; subst.
      inversion Hnd as [| ? ? Hc Hnd']; subst.
      apply NoDup_app.
      * destruct (FS.isdir ch && keep c); [apply IHc; exact Huc | constructor].
      * apply IHes; assumption.
      * intros p Hp1 Hp2.
        destruct (FS.isdir ch && keep c); [| destruct Hp1].
        apply media_below in Hp1. destruct Hp1 as (ds1 & name1 & ->).
        apply in_flat_map in Hp2. destruct Hp2 as (y & Hy & Hp2).
        apply in_flat_map in Hy. destruct Hy as ([c' ch'] & Hin' & Hy).
        cbn [fst snd] in Hy.
        destruct (FS.isdir ch' && keep c'); [| destruct Hy].
        assert (Hp2' : In ((top // c) ++ ds1 ++ [name1])%list
                         (flat_map media_in (FS.walk_node keep (top // c') ch')))
          by (apply in_flat_map; eauto).
        apply media_below in Hp2'. destruct Hp2' as (ds2 & name2 & Heq).
        unfold PurePath.div in Heq. rewrite <- !app_assoc in Heq.
        apply app_inv_head in Heq. cbn in Heq. injection Heq as -> _.
        apply Hc. apply in_map_iff. exists (c', ch'). auto.
    + intros p Hp1 Hp2. cbn [media_in] in Hp1.
      apply filter_In in Hp1. destruct Hp1 as [Hp1 _].
      apply in_map_iff in Hp1. destruct Hp1 as (file & <- & _).
      apply in_flat_map in Hp2. destruct Hp2 as (y & Hy & Hp2).
      apply in_flat_map in Hy. destruct Hy as ([c' ch'] & Hin' & Hy).
      cbn [fst snd] in Hy.
      destruct (FS.isdir ch' && keep c'); [| destruct Hy].
      assert (Hp2' : In (top // file)
                       (flat_map media_in (FS.walk_node keep (top // c') ch')))
        by (apply in_flat_map; eauto).
      apply media_below in Hp2'. destruct Hp2' as (ds2 & name2 & Heq).
      unfold PurePath.div in Heq. rewrite <- !app_assoc in Heq.
      apply app_inv_head in Heq. cbn in Heq. injection Heq as _ Heq.
      destruct ds2; discriminate.
Qed.

(** X17. In a tree where names are unique within each directory the scanner
    yields no path twice, so no file is submitted to the pool twice in a
    run. *)
Theorem find_media_files_NoDup
  (n : node) (root_dir : Path) (exclude_dirs : option (list string)) :
  unique_names n ->
  NoDup (find_media_files n root_dir exclude_dirs).
Proof.
  intros Hu. rewrite find_media_files_eq. unfold FS.walk.
  destruct (FS.lookup n root_dir) as [x | e] eqn:Hl; [| constructor].
  apply NoDup_media. eapply lookup_unique_names; eassumption.
Qed.

Lemma find_media_files_NoDup_witness :
  NoDup (find_media_files Demo.root ["srv"; "media"] None).
Proof.
  apply find_media_files_NoDup.
  cbn. repeat (split; try (repeat constructor; cbn; intuition discriminate)).
Defined.

(** ** Which names are media files *)

Lemma string_length_append (s t : string) :
  String.length (s ++ t) = (String.length s + String.length t)%nat.
Proof. induction s as [| a s IH]; cbn; [| rewrite IH]; reflexivity. Qed.

Lemma rfind_free c s : free_of c s -> Str.rfind c s = -1.
Proof.
  unfold free_of. induction s as [| a s IH]; cbn; [reflexivity |].
  intros H. rewrite IH by tauto. cbn.
  destruct (Ascii.eqb a c) eqn:Hac; [| reflexivity].
  apply Ascii.eqb_eq in Hac. subst. tauto.
Qed.

Lemma rfind_last_dot stem rest :
  free_of "." rest ->
  Str.rfind "." (stem ++ String "." rest) = Z.of_nat (String.length stem).
Proof.
  intros Hf. induction stem as [| a stem IH].
  - cbn. now rewrite (rfind_free _ _ Hf).
  - cbn [append Str.rfind String.length]. rewrite IH.
    destruct (0 <=? Z.of_nat (String.length stem)) eqn:H; lia.
Qed.

Lemma substring_all s : substring 0 (String.length s) s = s.
Proof. induction s as [| a s IH]; cbn; [| rewrite IH]; reflexivity. Qed.

Lemma drop_append stem s :
  Str.drop (Z.of_nat (String.length stem)) (stem ++ s) = s.
Proof.
  unfold Str.drop. rewrite Nat2Z.id, string_length_append.
  replace (String.length stem + String.length s - String.length stem)%nat
    with (String.length s) by lia.
  induction stem as [| a stem IH]; cbn; [apply substring_all | exact IH].
Qed.

Lemma name_div (dir : Path) name : PurePath.name (dir // name) = name.
Proof. unfold PurePath.name, PurePath.div. apply last_last. Qed.

(** X18. A file named [stem.ext], with a non-empty stem and a non-empty
    extension without a dot, has the suffix [.ext] whatever its directory;
    it is a media file exactly when the lower-cased [.ext] is in one of the
    two tables, so the case of the extension does not matter.  A name that
    is only a dot and an extension, like [.jpg], has no suffix and is
    never a media file. *)
Theorem media_by_extension (dir : Path) (stem rest : string) :
  stem <> "" ->
  rest <> "" ->
  free_of "." rest ->
  extension_of (dir // (stem ++ String "." rest)) = Str.lower (String "." rest)
  /\ (is_media (dir // (stem ++ String "." rest)) = true
      <-> In (Str.lower (String "." rest)) (IMAGE_EXTENSIONS ++ VIDEO_EXTENSIONS))
  /\ is_media (dir // String "." rest) = false.
Proof.
  intros Hs Hr Hf.
  assert (Hext : extension_of (dir // (stem ++ String "." rest))
                 = Str.lower (String "." rest)).
  { unfold extension_of, PurePath.suffix. rewrite name_div.
    rewrite (rfind_last_dot _ _ Hf), string_length_append. cbn [String.length].
    assert (0 < Z.of_nat (String.length stem))
      by (destruct stem; [congruence | cbn; lia]).
    assert (0 < Z.of_nat (String.length rest))
      by (destruct rest; [congruence | cbn; lia]).
    destruct (0 <? Z.of_nat (String.length stem)) eqn:H1; [| lia].
    destruct (Z.of_nat (String.length stem)
              <? Z.of_nat (String.length stem + S (String.length rest)) - 1) eqn:H2;
      [| apply Z.ltb_ge in H2; lia].
    cbn [andb]. now rewrite drop_append. }
  split; [exact Hext |]. split.
  - unfold is_media. rewrite Hext, orb_true_iff, !mem_In, in_app_iff. reflexivity.
  - unfold is_media, extension_of, PurePath.suffix. rewrite name_div.
    cbn [Str.rfind]. rewrite (rfind_free _ _ Hf). reflexivity.
Qed.

Lemma media_by_extension_witness :
  extension_of ["srv"; "media"; "IMG_0001.JPG"] = ".jpg"
  /\ is_media ["srv"; "media"; "IMG_0001.JPG"] = true
  /\ is_media ["srv"; "media"; ".JPG"] = false.
Proof.
  destruct (media_by_extension ["srv"; "media"] "IMG_0001" "JPG") as (H1 & H2 & H3).
  - discriminate.
  - discriminate.
  - unfold free_of. cbn. intuition discriminate.
  - split; [exact H1 |]. split; [| exact H3].
    apply H2. cbn. tauto.
Defined.

(** ** The URI and the file name lose nothing *)

Lemma append_nil_r (s : string) : s ++ "" = s.
Proof. induction s as [| a s IH]; cbn; [| rewrite IH]; reflexivity. Qed.

Lemma concat_empty l : String.concat "" l = fold_right append "" l.
Proof.
  induction l as [| x [| y r] IH]; cbn in *.
  - reflexivity.
  - now rewrite append_nil_r.
  - now rewrite IH.
Qed.

Lemma str_nonempty c (p : Path) :
  PurePath.str (c :: p)
  = String "/" (c ++ fold_right append "" (map (fun c => "/" ++ c) p)).
Proof. unfold PurePath.str. rewrite concat_empty. reflexivity. Qed.

Lemma slashed_head (p : Path) :
  fold_right append "" (map (fun c => "/" ++ c) p) = ""
  \/ exists r, fold_right append "" (map (fun c => "/" ++ c) p) = String "/" r.
Proof. destruct p; cbn; eauto. Qed.

Lemma split_at_slash c : forall c' r r',
  free_of "/" c -> free_of "/" c' ->
  (r = "" \/ exists x, r = String "/" x) ->
  (r' = "" \/ exists x, r' = String "/" x) ->
  c ++ r = c' ++ r' -> c = c' /\ r = r'.
Proof.
  unfold free_of.
  induction c as [| a c IH]; intros c' r r' Hc Hc' Hr Hr' Heq.
  - destruct c' as [| a' c']; [auto |]. cbn in Heq. exfalso.
    destruct Hr as [-> | [x ->]]; [discriminate |].
    injection Heq as <- _. apply Hc'. cbn. now left.
  - destruct c' as [| a' c'].
    + cbn in Heq. exfalso.
      destruct Hr' as [-> | [x ->]]; [discriminate |].
      injection Heq as -> _. apply Hc. cbn. now left.
    + cbn in Heq. injection Heq as -> Heq.
      destruct (IH c' r r') as [-> ->]; auto.
      * intros H. apply Hc. cbn. now right.
      * intros H. apply Hc'. cbn. now right.
Qed.

Lemma slashed_injective (p : Path) : forall q : Path,
  proper_path p -> proper_path q ->
  fold_right append "" (map (fun c => "/" ++ c) p)
  = fold_right append "" (map (fun c => "/" ++ c) q) ->
  p = q.
Proof.
  induction p as [| c p IH]; intros q Hp Hq Heq.
  - destruct q; [reflexivity | discriminate].
  - destruct q as [| c' q]; [discriminate |].
    inversion Hp as [| ? ? [_ Hc] Hp']; subst.
    inversion Hq as [| ? ? [_ Hc'] Hq']; subst.
    cbn in Heq. injection Heq as Heq.
    destruct (split_at_slash _ _ _ _ Hc Hc' (slashed_head p) (slashed_head q) Heq)
      as [-> Hr].
    f_equal. now apply IH.
Qed.

Lemma str_injective (p q : Path) :
  proper_path p -> proper_path q -> PurePath.str p = PurePath.str q -> p = q.
Proof.
  intros Hp Hq Heq. destruct p as [| c p], q as [| c' q].
  - reflexivity.
  - exfalso. rewrite str_nonempty in Heq. cbn in Heq. injection Heq as Heq.
    inversion Hq as [| ? ? [Hne _] _]; subst.
    destruct c'; [congruence | discriminate].
  - exfalso. rewrite str_nonempty in Heq. cbn in Heq. injection Heq as Heq.
    inversion Hp as [| ? ? [Hne _] _]; subst.
    destruct c; [congruence | discriminate].
  - apply slashed_injective; try assumption.
    rewrite !str_nonempty in Heq. cbn. now injection Heq as ->.
Qed.

(** X19. The URI determines the resolved path: two files whose resolved
    paths have proper components (non-empty, without a slash) get the same
    URI exactly when they resolve to the same path. *)
Theorem file_uri_injective {E : Env} (p q p' q' : Path) :
  resolve p = Return p' ->
  resolve q = Return q' ->
  proper_path p' ->
  proper_path q' ->
  exists u v,
    get_file_uri p = Return u /\ get_file_uri q = Return v
    /\ (u = v <-> p' = q').
Proof.
  intros Hrp Hrq Hp Hq. unfold get_file_uri. rewrite Hrp, Hrq.
  eexists _, _. split; [reflexivity |]. split; [reflexivity |]. split.
  - intros H. apply str_injective; try assumption.
    cbn in H. now repeat injection H as H.
  - intros ->. reflexivity.
Qed.

Lemma file_uri_injective_witness :
  exists u v,
    get_file_uri (E := Demo.env) ["srv"; "a.jpg"] = Return u
    /\ get_file_uri (E := Demo.env) ["srv"; "b.jpg"] = Return v
    /\ u <> v.
Proof.
  destruct (file_uri_injective (E := Demo.env) ["srv"; "a.jpg"] ["srv"; "b.jpg"]
              ["srv"; "a.jpg"] ["srv"; "b.jpg"] eq_refl eq_refl)
    as (u & v & Hu & Hv & Huv).
  - repeat constructor; try discriminate; unfold free_of; cbn; intuition discriminate.
  - repeat constructor; try discriminate; unfold free_of; cbn; intuition discriminate.
  - exists u, v. split; [exact Hu |]. split; [exact Hv |].
    intros H. apply Huv in H. discriminate H.
Defined.

Lemma hex_digit_injective a b :
  0 <= a < 16 -> 0 <= b < 16 -> MD5.hex_digit a = MD5.hex_digit b -> a = b.
Proof.
  intros Ha Hb.
  assert (Ia : In a (map Z.of_nat (seq 0 16))).
  { replace a with (Z.of_nat (Z.to_nat a)) by lia. apply in_map, in_seq. lia. }
  assert (Ib : In b (map Z.of_nat (seq 0 16))).
  { replace b with (Z.of_nat (Z.to_nat b)) by lia. apply in_map, in_seq. lia. }
  cbn in Ia, Ib.
  repeat (destruct Ia as [<- | Ia]; [
    repeat (destruct Ib as [<- | Ib]; [intros H; first [reflexivity | discriminate H] |]);
    destruct Ib |]).
  destruct Ia.
Qed.

Lemma hex_injective bs : forall bs',
  Forall (fun b => 0 <= b < 256) bs ->
  Forall (fun b => 0 <= b < 256) bs' ->
  MD5.hex bs = MD5.hex bs' -> bs = bs'.
Proof.
  induction bs as [| b bs IH]; intros bs' Hr Hr' Heq.
  - destruct bs'; [reflexivity | discriminate].
  - destruct bs' as [| b' bs']; [discriminate |].
    inversion Hr as [| ? ? Hb Hbs]; subst.
    inversion Hr' as [| ? ? Hb' Hbs']; subst.
    cbn in Heq. injection Heq as H1 H2 H3.
    apply hex_digit_injective in H1;
      [| split; [apply Z.div_pos | apply Z.div_lt_upper_bound]; lia
       | split; [apply Z.div_pos | apply Z.div_lt_upper_bound]; lia].
    apply hex_digit_injective in H2; [| apply Z.mod_pos_bound; lia ..].
    f_equal; [| now apply IH].
    rewrite (Z.div_mod b 16), (Z.div_mod b' 16) by lia. now rewrite H1, H2.
Qed.

Lemma append_inv_tail (s : string) : forall t x, s ++ x = t ++ x -> s = t.
Proof.
  induction s as [| a s IH]; intros t x Heq.
  - destruct t as [| b t]; [reflexivity |]. exfalso.
    apply (f_equal String.length) in Heq. cbn in Heq.
    rewrite string_length_append in Heq. lia.
  - destruct t as [| b t].
    + exfalso. apply (f_equal String.length) in Heq. cbn in Heq.
      rewrite string_length_append in Heq. lia.
    + cbn in Heq. injection Heq as -> Heq. f_equal. eapply IH; eassumption.
Qed.

(** X20. The thumbnail file name loses nothing of the digest: two paths
    that have a file name get the same one exactly when the MD5 digests of
    the UTF-8 bytes of their URIs are equal. *)
Theorem thumbnail_filename_collision {E : Env} (p q : Path) (u v a b : string) :
  get_file_uri p = Return u ->
  get_file_uri q = Return v ->
  get_thumbnail_filename p = Return a ->
  get_thumbnail_filename q = Return b ->
  (a = b <-> MD5.digest (Str.bytes u) = MD5.digest (Str.bytes v)).
Proof.
  unfold get_thumbnail_filename, encode_utf8, MD5.hexdigest.
  intros -> ->.
  destruct (Str.valid_utf8 (Str.bytes u)); [| discriminate].
  destruct (Str.valid_utf8 (Str.bytes v)); [| discriminate].
  intros Ha Hb. injection Ha as <-. injection Hb as <-. split.
  - intros H. apply append_inv_tail in H.
    apply hex_injective in H; [exact H | apply digest_range ..].
  - intros ->. reflexivity.
Qed.

Lemma thumbnail_filename_collision_witness :
  "d5b59137c1c7a3e14fafe4bdee2fc465.png" = "6f4da7581a5a0f9b2b38166d3d9cc7a0.png"
  <-> MD5.digest (Str.bytes "file:///srv/media/photo.jpg")
      = MD5.digest (Str.bytes "file:///a/b/c.jpg").
Proof.
  apply (thumbnail_filename_collision (E := Demo.env)
           ["srv"; "media"; "photo.jpg"] ["a"; "b"; "c.jpg"]).
  - reflexivity.
  - reflexivity.
  - vm_compute. reflexivity.
  - vm_compute. reflexivity.
Defined.

(** ** The exit code of a run over a fresh cache *)

Lemma count_failed_all (l : list Path) details :
  count_status "failed" (map (fun p => Return (p, "failed", details)) l)
  = Z.of_nat (List.length l).
Proof.
  induction l as [| p l IH]; [reflexivity |].
  cbn [map]. rewrite count_status_cons, IH, String.eqb_refl.
  cbn [List.length]. lia.
Qed.

Lemma count_success_none (l : list Path) details :
  count_status "success" (map (fun p => Return (p, "failed", details)) l) = 0.
Proof.
  induction l as [| p l IH]; [reflexivity |].
  cbn [map]. rewrite count_status_cons, IH. reflexivity.
Qed.

(** X21. A run without force over a directory whose scanned files all have
    a thumbnail name and fresh entries for both variants reports every file
    as failed and none as successful, so it returns 1 as soon as there is
    one media file, and 0 only when there is none. *)
Theorem fresh_run_exit_code {E : Env} (args : Args) (w : World) :
  FS.is_dir (fs w) (directory args) = true ->
  dry_run args = false ->
  force args = false ->
  0 < workers args ->
  (forall p, In p (find_media_files (fs w) (directory args) None) ->
     hashable p
     /\ fresh (fs w) p (entry_path p "normal")
     /\ fresh (fs w) p (entry_path p "large")) ->
  exists c w2,
    main args w
    = (Return (match find_media_files (fs w) (directory args) None with
               | [] => 0
               | _ :: _ => 1
               end),
       mkWorld (fs w2) (now w2)
         (trace w2
          ++ summary_events c
               (len (find_media_files (fs w) (directory args) None)))%list)
    /\ successful c = 0
    /\ failed c = Z.of_nat (List.length (find_media_files (fs w) (directory args) None))
    /\ fs w2 = fs w.
Proof.
  intros Hd Hdry Hforce Hw Hfresh.
  rewrite (main_run _ _ Hd Hdry). cbv zeta.
  destruct (workers args <=? 0) eqn:Hle; [lia |].
  rewrite Hforce, submit_all_fresh.
  2:{ intros p Hp.
      split; [apply (find_media_files_media (fs w) (directory args) None); exact Hp |].
      exact (Hfresh p Hp). }
  match goal with
  | |- context [collect ?f ?w1] =>
      destruct (collect_returns f w1 (returned_outcomes _ _))
        as (c & w2 & Hc & Hf & Hs & Hfs & _)
  end.
  rewrite Hc. rewrite count_failed_all in Hf. rewrite count_success_none in Hs.
  exists c, w2. split; [| split; [exact Hs | split; [exact Hf | exact Hfs]]].
  f_equal. f_equal. rewrite Hf.
  destruct (find_media_files (fs w) (directory args) None); reflexivity.
Qed.

Lemma fresh_run_exit_code_witness :
  fst (main (E := Demo.env) (Demo.args ["p"]) (Demo.world Demo.photos_done 200))
  = Return 1.
Proof.
  destruct (fresh_run_exit_code (E := Demo.env) (Demo.args ["p"])
              (Demo.world Demo.photos_done 200) eq_refl eq_refl eq_refl eq_refl)
    as (c & w2 & Hm & _).
  - intros p Hp. vm_compute in Hp. destruct Hp as [<- | []].
    split; [eexists; vm_compute; reflexivity |].
    split; exists 10, 100;
      (split; [vm_compute; reflexivity |]);
      (split; [vm_compute; reflexivity | lia]).
  - rewrite Hm. reflexivity.
Defined.

Lemma create_thumbnail_dirs_keeps_files_witness :
  FS.lookup
    (fs (snd (create_thumbnail_dirs (E := Demo.env) ["srv"; "media"]
                (Demo.world Demo.root 100))))
    ["srv"; "media"; "photo.jpg"]
  = Return (File 10 "jpeg").
Proof.
  apply (proj1 (create_thumbnail_dirs_keeps_files (E := Demo.env) ["srv"; "media"]
                  (Demo.world Demo.root 100))).
  reflexivity.
Defined.
